(** * The glyph-rain core of toll-bill-bot: a shallow embedding

    The matrix effect of [initializeMatrixEffect] (static/app.js) keeps four
    module-level variables ([columns], [rows], [drops], [freezeMap]) and
    mutates them from three places: [resizeCanvas], [drawTargetToMap] and the
    per-frame [draw] (which ends with [diffuseFreeze]).  Below, these
    variables are the fields of a record [State]; every function of the
    source is a state transformer on it, returning [option] where the
    JavaScript can raise.

    Numbers.  The grid dimensions, cursors, cell states and pixel bytes are
    JavaScript integers, modelled as [Z].  The font size and the anchors of
    the text are computed in IEEE 754 binary64 arithmetic, as the source
    computes them: module [Double] below, over the Standard Library's
    [SpecFloat].  The results of [Math.random()] and the bounding rectangle
    are taken as the rationals that these doubles denote, so that there
    [Math.floor] is [Qfloor] and [Math.ceil] is [Qceiling].

    Strings.  A JavaScript string is a sequence of UTF-16 code units, here a
    [list Z]; [length] is the number of code units, as in the source. *)

From Stdlib Require Import ZArith QArith Qround Qminmax Lia String Ascii.
From Stdlib Require Import SpecFloat.
From stdpp Require Import base option list.

Local Open Scope Z_scope.

(** ** JavaScript string primitives used by the rasterizer *)

Module JS.

Definition jsstring := list Z.

(** An ASCII literal as code units. *)
Definition lit (s : string) : jsstring :=
  List.map (fun a => Z.of_N (N_of_ascii a)) (list_ascii_of_string s).

(** ECMAScript WhiteSpace and LineTerminator code points: what [trim] and
    [trimEnd] strip. *)
Definition isWhiteSpace (c : Z) : bool :=
  (c =? 9) || (c =? 10) || (c =? 11) || (c =? 12) || (c =? 13) || (c =? 32)
  || (c =? 160) || (c =? 5760) || ((8192 <=? c) && (c <=? 8202))
  || (c =? 8232) || (c =? 8233) || (c =? 8239) || (c =? 8287)
  || (c =? 12288) || (c =? 65279).

Fixpoint trimStart (s : jsstring) : jsstring :=
  match s with
  | [] => []
  | c :: s' => if isWhiteSpace c then trimStart s' else s
  end.

Fixpoint trimEnd (s : jsstring) : jsstring :=
  match s with
  | [] => []
  | c :: s' =>
      match trimEnd s' with
      | [] => if isWhiteSpace c then [] else [c]
      | r => c :: r
      end
  end.

(** [String.prototype.trim]: both ends. *)
Definition trim (s : jsstring) : jsstring := trimEnd (trimStart s).

(** [s.split('\n')]: the segments between line feeds; never empty. *)
Fixpoint split_lf (s : jsstring) : list jsstring :=
  match s with
  | [] => [[]]
  | c :: s' =>
      if c =? 10 then [] :: split_lf s'
      else match split_lf s' with
           | l :: ls => (c :: l) :: ls
           | [] => [[c]]
           end
  end.

(** [a || b] on strings: the empty string is falsy. *)
Definition or_else (a b : jsstring) : jsstring :=
  match a with [] => b | _ => a end.

End JS.

Import JS.

(** ** JavaScript numbers: binary64 with round to nearest, ties to even *)

Module Double.

Definition double : Type := spec_float.

(** An integer as a double (exact below 2^53). *)
Definition ofZ (z : Z) : double := binary_normalize 53 1024 z 0 false.

Definition mul : double -> double -> double := SFmul 53 1024.
Definition div : double -> double -> double := SFdiv 53 1024.
Definition add : double -> double -> double := SFadd 53 1024.
Definition sub : double -> double -> double := SFsub 53 1024.

(** The literals [0.62] and [1.2]: the doubles nearest to 62/100 and
    12/10. *)
Definition lit_0_62 : double := S754_finite false 5584463537939415 (-53).
Definition lit_1_2 : double := S754_finite false 5404319552844595 (-52).

(** [Math.floor]: NaN, the infinities and the zeros are returned as they
    are; so is a finite double with a non-negative exponent, which is an
    integer. *)
Definition Math_floor (x : double) : double :=
  match x with
  | S754_finite s m e =>
      if 0 <=? e then x
      else
        match Z.shiftr (if s then Zneg m else Zpos m) (- e) with
        | 0 => S754_zero s
        | n => ofZ n
        end
  | _ => x
  end.

(** [Math.min] and [Math.max] of two numbers: NaN if either is NaN, and
    [-0] below [+0]. *)
Definition Math_min (a b : double) : double :=
  match SFcompare a b with
  | None => S754_nan
  | Some Lt => a
  | Some Gt => b
  | Some Eq =>
      match a, b with
      | S754_zero sa, S754_zero sb => S754_zero (sa || sb)
      | _, _ => a
      end
  end.

Definition Math_max (a b : double) : double :=
  match SFcompare a b with
  | None => S754_nan
  | Some Lt => b
  | Some Gt => a
  | Some Eq =>
      match a, b with
      | S754_zero sa, S754_zero sb => S754_zero (sa && sb)
      | _, _ => a
      end
  end.

End Double.

Import Double.

(** ** Constants of [initializeMatrixEffect] *)

Definition glyphs : list string := ["0"%string; "1"%string].
Definition fontSize : Z := 14.
Definition freezeSpeed : Q := 6 # 1000.
Definition defaultPhrase : jsstring := lit "TOLL BOT".

(** [a < b] on doubles, as a boolean. *)
Definition Qltb (a b : Q) : bool := negb (Qle_bool b a).

(** ** Text normalization and font size ([drawTargetToMap], lines 141-150) *)

Definition nonEmpty (line : jsstring) : bool := (0 <? Z.of_nat (length line)).

(** [text.trim().split('\n').map(trimEnd).filter(length > 0).slice(0, 6)] *)
Definition lineList (text : jsstring) : list jsstring :=
  take 6 (List.filter nonEmpty (List.map trimEnd (split_lf (trim text)))).

(** [lineList.length > 0 ? lineList : ['TOLL BOT']] *)
Definition lines (text : jsstring) : list jsstring :=
  if (0 <? Z.of_nat (length (lineList text))) then lineList text
  else [defaultPhrase].

(** [Math.max(...lines.map((line) => line.length), 1)] *)
Definition maxLen (ls : list jsstring) : Z :=
  List.fold_right Z.max 1 (List.map (fun line => Z.of_nat (length line)) ls).

(** [Math.max(6, Math.floor(Math.min(columns / (maxLen * 0.62),
                                      rows / (lines.length * 1.2))))] *)
Definition textSize (columns rows : Z) (ls : list jsstring) : double :=
  Math_max (ofZ 6)
    (Math_floor
       (Math_min (div (ofZ columns) (mul (ofZ (maxLen ls)) lit_0_62))
                 (div (ofZ rows) (mul (ofZ (Z.of_nat (length ls))) lit_1_2)))).

(** The normalization as the specification words it: split on line breaks,
    trim trailing whitespace per line, discard empty lines, keep at most the
    first six. *)
Definition spec_normalize (text : jsstring) : list jsstring :=
  take 6 (List.filter nonEmpty (List.map trimEnd (split_lf text))).

(** The font size as the specification words it: the length of the longest
    line and the number of lines give the two constraints.  [spec_fontSize]
    evaluates the formula in doubles, [exact_fontSize] in exact
    arithmetic. *)
Definition longestLine (ls : list jsstring) : Z :=
  List.fold_right (fun line m => Z.max (Z.of_nat (length line)) m) 0 ls.

Definition spec_fontSize (columns rows : Z) (ls : list jsstring) : double :=
  Math_max (ofZ 6)
    (Math_floor
       (Math_min (div (ofZ columns) (mul (ofZ (longestLine ls)) lit_0_62))
                 (div (ofZ rows) (mul (ofZ (Z.of_nat (length ls))) lit_1_2)))).

Definition exact_fontSize (columns rows : Z) (ls : list jsstring) : Z :=
  Z.max 6
    (Qfloor (Qmin (inject_Z columns / (inject_Z (longestLine ls) * (62 # 100)))
                  (inject_Z rows / (inject_Z (Z.of_nat (length ls)) * (12 # 10))))).

(** ** The animation state *)

(** A drawing command issued on the visible 2D context. *)
Inductive DrawOp : Type :=
| FillRect (style : string) (x y w h : Z)
| FillText (style : string) (glyph : string) (x y : Z).

(** The closure variables of [initializeMatrixEffect], the size of the
    visible canvas, the number of [Math.random()] calls made so far, and the
    commands painted on the visible canvas (oldest first). *)
Record State : Type := mkState {
  canvasWidth : Z;
  canvasHeight : Z;
  columns : Z;
  rows : Z;
  drops : list Z;
  freezeMap : list (list Z);
  seed : nat;
  painted : list DrawOp
}.

(** Before [resizeCanvas] runs: [columns = 0], [rows = 0], [drops = []],
    [freezeMap = []]; the canvas has the size of its element. *)
Definition initialState (w h : Z) : State :=
  mkState w h 0 0 [] [] 0 [].

Definition setFreezeMap (fm : list (list Z)) (s : State) : State :=
  mkState (canvasWidth s) (canvasHeight s) (columns s) (rows s) (drops s) fm
          (seed s) (painted s).

Definition setDrop (column : nat) (v : Z) (s : State) : State :=
  mkState (canvasWidth s) (canvasHeight s) (columns s) (rows s)
          (<[column := v]> (drops s)) (freezeMap s) (seed s) (painted s).

Definition paint (op : DrawOp) (s : State) : State :=
  mkState (canvasWidth s) (canvasHeight s) (columns s) (rows s) (drops s)
          (freezeMap s) (seed s) (painted s ++ [op]).

(** [a[i]] for a JavaScript number [i]: [undefined] ([None]) outside the
    array, negative indices included. *)
Definition lookupZ {A} (l : list A) (i : Z) : option A :=
  if i <? 0 then None else l !! Z.to_nat i.

(** [for (let i = 0; i < n; i += 1)]: the values [i] takes. *)
Definition upto (n : Z) : list nat := seq 0 (Z.to_nat n).

(** A loop whose body can raise: the first [None] aborts it. *)
Fixpoint forEach {A S : Type} (body : A -> S -> option S) (l : list A) (s : S)
  : option S :=
  match l with
  | [] => Some s
  | a :: l' =>
      match body a s with
      | Some s' => forEach body l' s'
      | None => None
      end
  end.

(** [grid[y][x] = v].  A missing row is a TypeError ([None]).  Every write of
    the source follows a read of the same cell or targets a freshly allocated
    row of [columns] entries, so the column is always in range. *)
Definition writeCell (y x : nat) (v : Z) (grid : list (list Z))
  : option (list (list Z)) :=
  match grid !! y with
  | Some line => Some (<[y := <[x := v]> line]> grid)
  | None => None
  end.

(** [Array.from({ length: rows }, () => Array(columns).fill(0))] *)
Definition zeroGrid (rows columns : Z) : list (list Z) :=
  replicate (Z.to_nat rows) (replicate (Z.to_nat columns) 0).

(** [freezeMap[row]?.[column] ?? 0] *)
Definition cellState (fm : list (list Z)) (row : Z) (column : nat) : Z :=
  match lookupZ fm row with
  | None => 0
  | Some line =>
      match line !! column with
      | None => 0
      | Some v => v
      end
  end.

(** [glyphs[r > 0.5 ? 1 : 0]] *)
Definition pickGlyph (r : Q) : string :=
  match glyphs !! (if Qltb (1 # 2) r then 1%nat else 0%nat) with
  | Some g => g
  | None => "undefined"%string
  end.

(** The off-screen 2D context of [drawTargetToMap], as far as the function
    observes it: after the black [fillRect] and one centred, middle-aligned
    [fillText(line, x, y)] per line in the given pixel size, the bytes that
    [getImageData(0, 0, width, height).data] holds (RGBA, row-major).  The
    arguments are the width, the height, the font size and the calls. *)
Definition Offscreen : Type :=
  Z -> Z -> double -> list (jsstring * double * double) -> list Z.

(** [imageData[i + 3] > 30]; a byte that is not there compares false. *)
Definition opaque (imageData : list Z) (i : Z) : bool :=
  match lookupZ imageData (i + 3) with
  | Some alpha => 30 <? alpha
  | None => false
  end.

(** The [fillText] calls of [lines.forEach], with [centerX], [lineHeight]
    and [startY] of lines 155-157. *)
Definition textCalls (columns rows : Z) (size : double) (ls : list jsstring)
  : list (jsstring * double * double) :=
  let centerX := div (ofZ columns) (ofZ 2) in
  let lineHeight := mul size lit_1_2 in
  let startY :=
    sub (div (ofZ rows) (ofZ 2))
        (div (mul (sub (ofZ (Z.of_nat (length ls))) (ofZ 1)) lineHeight)
             (ofZ 2)) in
  imap (fun index line =>
          (line, centerX, add startY (mul (ofZ (Z.of_nat index)) lineHeight)))
       ls.

(** The two nested loops of lines 166-172, on the freshly allocated grid. *)
Definition fillTarget (columns rows : Z) (imageData : list Z)
  : option (list (list Z)) :=
  forEach (fun y =>
    forEach (fun x target =>
      let i := (Z.of_nat y * columns + Z.of_nat x) * 4 in
      writeCell y x (if opaque imageData i then 1 else 0) target)
    (upto columns))
  (upto rows) (zeroGrid rows columns).

(** [drawTargetToMap(text)].  [off] is what [local.getContext('2d')]
    returned.  [getImageData] raises an IndexSizeError on an empty rectangle:
    that is [None]. *)
Definition drawTargetToMap (off : option Offscreen) (text : jsstring)
    (s : State) : option State :=
  match off with
  | None => Some s
  | Some localCtx =>
      let ls := lines text in
      let size := textSize (columns s) (rows s) ls in
      let calls := textCalls (columns s) (rows s) size ls in
      if (columns s <=? 0) || (rows s <=? 0) then None
      else
        let imageData := localCtx (columns s) (rows s) size calls in
        match fillTarget (columns s) (rows s) imageData with
        | Some target => Some (setFreezeMap target s)
        | None => None
        end
  end.

(** The three-state automaton of the freeze diffusion engine as the
    specification words it: a target cell locks when its draw [r] is below
    0.006, a locked cell unlocks when its draw is below 0.001, and nothing
    else changes. *)
Definition automaton (v : Z) (r : Q) : Z :=
  if v =? 1 then (if Qltb r (6 # 1000) then 2 else 1)
  else if v =? 2 then (if Qltb r (1 # 1000) then 1 else 2)
  else v.

(** The cursor rule as the specification words it: reset to row 0 past the
    last row or when the early-reset draw fires, one row down otherwise. *)
Definition spec_advance (rows row : Z) (fires : bool) : Z :=
  if (rows <? row) || fires then 0 else row + 1.

Section Animation.

(** The source of randomness: [rnd k] is what the [k]-th call of
    [Math.random()] returns. *)
Variable rnd : nat -> Q.

Definition Math_random (s : State) : Q * State :=
  (rnd (seed s),
   mkState (canvasWidth s) (canvasHeight s) (columns s) (rows s) (drops s)
           (freezeMap s) (S (seed s)) (painted s)).

(** [resizeCanvas()]; the arguments are the width and height of
    [matrixRoot.getBoundingClientRect()]. *)
Definition resizeCanvas (rectWidth rectHeight : Q) (s : State) : State :=
  let width := Z.max (Qfloor rectWidth) 240 in
  let height := Z.max (Qfloor rectHeight) 280 in
  let columns' := Qceiling (inject_Z width / inject_Z fontSize) in
  let rows' := Qceiling (inject_Z height / inject_Z fontSize) in
  let drops' :=
    List.map (fun i => Qfloor (rnd (seed s + i)%nat * inject_Z rows'))
             (upto columns') in
  mkState width height columns' rows' drops' (zeroGrid rows' columns')
          (seed s + Z.to_nat columns')%nat (painted s).

(** The body of the inner loop of [diffuseFreeze]. *)
Definition diffuseCell (y x : nat) (s : State) : option State :=
  match freezeMap s !! y with
  | None => None
  | Some line =>
      match line !! x with
      | None => Some s
      | Some v =>
          if v =? 1 then
            let '(r, s1) := Math_random s in
            if Qltb r freezeSpeed then
              match writeCell y x 2 (freezeMap s1) with
              | Some fm => Some (setFreezeMap fm s1)
              | None => None
              end
            else Some s1
          else if v =? 2 then
            let '(r, s1) := Math_random s in
            if Qltb r (1 # 1000) then
              match writeCell y x 1 (freezeMap s1) with
              | Some fm => Some (setFreezeMap fm s1)
              | None => None
              end
            else Some s1
          else Some s
      end
  end.

Definition diffuseFreeze (s : State) : option State :=
  forEach (fun y => forEach (fun x => diffuseCell y x) (upto (columns s)))
          (upto (rows s)) s.

(** [row > rows || Math.random() > 0.975 ? 0 : row + 1]; the draw is made
    only when the left operand is false. *)
Definition advance (row : Z) (s : State) : Z * State :=
  if rows s <? row then (0, s)
  else
    let '(r, s1) := Math_random s in
    (if Qltb (975 # 1000) r then 0 else row + 1, s1).

(** The body of the column loop of [draw].  A cursor that is missing from
    [drops] would be [undefined] and poison the arithmetic with NaN; the
    model stops there ([None]). *)
Definition drawColumn (column : nat) (s : State) : option State :=
  match drops s !! column with
  | None => None
  | Some row =>
      let x := Z.of_nat column * fontSize in
      let y := row * fontSize in
      let state := cellState (freezeMap s) row column in
      if state =? 2 then
        let '(g, s1) := Math_random s in
        Some (paint (FillText "#e8ffec" (pickGlyph g) x y) s1)
      else
        let '(g, s1) := Math_random s in
        let s2 := paint (FillText "#63f28c" (pickGlyph g) x y) s1 in
        let '(next, s3) := advance row s2 in
        Some (setDrop column next s3)
  end.

(** One frame.  [window.requestAnimationFrame(draw)] schedules the next
    one: frames are the [Frame] events below. *)
Definition draw (s : State) : option State :=
  let s0 :=
    paint (FillRect "rgba(0, 10, 4, 0.18)" 0 0 (canvasWidth s) (canvasHeight s))
          s in
  match forEach drawColumn (upto (columns s0)) s0 with
  | Some s1 => diffuseFreeze s1
  | None => None
  end.

(** What happens after start-up: a frame, a submit of the form, a resize
    of the window.  [value] is [input.value]. *)
Inductive Event : Type :=
| Frame
| Submit (off : option Offscreen) (value : jsstring)
| Resize (rectWidth rectHeight : Q) (off : option Offscreen) (value : jsstring).

Definition step (e : Event) (s : State) : option State :=
  match e with
  | Frame => draw s
  | Submit off value => drawTargetToMap off (or_else value defaultPhrase) s
  | Resize w h off value =>
      drawTargetToMap off (or_else value defaultPhrase) (resizeCanvas w h s)
  end.

(** Start-up: [resizeCanvas(); drawTargetToMap('TOLL BOT');] and then the
    first frame. *)
Definition startup (cw ch : Z) (w h : Q) (off : option Offscreen)
  : option State :=
  drawTargetToMap off defaultPhrase (resizeCanvas w h (initialState cw ch)).

Inductive reachable : State -> Prop :=
| reach_start cw ch w h off s :
    startup cw ch w h off = Some s -> reachable s
| reach_step e s s' :
    reachable s -> step e s = Some s' -> reachable s'.

(** [n] successive frames. *)
Fixpoint frames (n : nat) (s : State) : option State :=
  match n with
  | O => Some s
  | S n' =>
      match draw s with
      | Some s' => frames n' s'
      | None => None
      end
  end.

(** [n] successive applications of the cursor rule to one cursor. *)
Fixpoint advances (n : nat) (row : Z) (s : State) : Z * State :=
  match n with
  | O => (row, s)
  | S n' => let '(next, s') := advance row s in advances n' next s'
  end.

End Animation.

(** ** Well-formed states *)

(** The shape that [resizeCanvas] establishes and every other function keeps:
    a non-degenerate grid, one cursor per column, a [rows] by [columns] map. *)
Definition shaped (s : State) : Prop :=
  0 < columns s /\ 0 < rows s
  /\ length (drops s) = Z.to_nat (columns s)
  /\ length (freezeMap s) = Z.to_nat (rows s)
  /\ Forall (fun line => length line = Z.to_nat (columns s)) (freezeMap s).

(** Every cursor is a row index, or one or two rows past the last one. *)
Definition cursorsBounded (s : State) : Prop :=
  Forall (fun d => 0 <= d <= rows s + 1) (drops s).

(** A cell of a target grid: idle or target, never locked. *)
Definition binary (v : Z) : Prop := v = 0 \/ v = 1.

(** [grid[y][x]] when both indices are in range. *)
Definition getCell (grid : list (list Z)) (y x : nat) : option Z :=
  match grid !! y with
  | Some line => line !! x
  | None => None
  end.

(** The colour of the glyph of a column, by the state of the cell under its
    cursor, and the command that paints it. *)
Definition glyphStyle (state : Z) : string :=
  if state =? 2 then "#e8ffec"%string else "#63f28c"%string.

Definition glyphOp (fm : list (list Z)) (column : nat) (row : Z) (g : Q)
  : DrawOp :=
  FillText (glyphStyle (cellState fm row column)) (pickGlyph g)
           (Z.of_nat column * fontSize) (row * fontSize).

(** The draws of an animation are uniform on the unit interval. *)
Definition unitDraws (rnd : nat -> Q) : Prop :=
  forall k, (0 <= rnd k)%Q /\ (rnd k < 1)%Q.

(** ** Relations between states, and concrete runs *)

(** What the freeze diffusion never touches. *)
Definition sameRain (s s' : State) : Prop :=
  columns s' = columns s /\ rows s' = rows s /\ drops s' = drops s
  /\ painted s' = painted s
  /\ canvasWidth s' = canvasWidth s /\ canvasHeight s' = canvasHeight s.

(** The invariant of both loops of [diffuseFreeze]. *)
Definition diffusing (s t : State) : Prop :=
  sameRain s t
  /\ length (freezeMap t) = length (freezeMap s)
  /\ forall c, Forall (fun line => length line = c) (freezeMap s) ->
               Forall (fun line => length line = c) (freezeMap t).

(** What the column loop never touches. *)
Definition sameGrid (s s' : State) : Prop :=
  columns s' = columns s /\ rows s' = rows s /\ freezeMap s' = freezeMap s
  /\ canvasWidth s' = canvasWidth s /\ canvasHeight s' = canvasHeight s.

(** The cursor of a column after its iteration: frozen in place on a locked
    cell, moved by the cursor rule elsewhere. *)
Definition nextCursor (s : State) (column : nat) (row : Z) (r : Q) : Z :=
  if cellState (freezeMap s) row column =? 2 then row
  else spec_advance (rows s) row (Qltb (975 # 1000) r).

(** Every draw is 0: every target cell locks at the first diffusion. *)
Definition example_rnd : nat -> Q := fun _ => 0%Q.

(** An off-screen context that paints every pixel opaque. *)
Definition example_ctx : Offscreen :=
  fun w h _ _ => replicate (Z.to_nat (w * h * 4)) 255.

(** Start-up on a 240 by 280 surface, and the first two frames. *)
Definition example_start : State :=
  default (initialState 300 150)
          (startup example_rnd 300 150 240 280 (Some example_ctx)).

Definition example_locked : State :=
  default example_start (draw example_rnd example_start).

Definition example_after : State :=
  default example_locked (draw example_rnd example_locked).

(** A one-row grid with a target cell and a locked cell, and a cursor far
    below the grid. *)
Definition example_small : State :=
  mkState 28 14 2 1 [0; 7] [[1; 2]] 0 [].

(** A line of thirty characters. *)
Definition example_wide : jsstring := lit "ABCDEFGHIJKLMNOPQRSTUVWXYZABCD".

(** Every draw is one half: no early reset ever fires. *)
Definition example_half : nat -> Q := fun _ => (1 # 2)%Q.

(** The state after start-up on a 240 by 280 surface when no off-screen
    context could be obtained. *)
Definition example_rain : State :=
  resizeCanvas example_half 240 280 (initialState 300 150).

(** The grid covers the canvas, which is at least 240 by 280. *)
Definition covering (s : State) : Prop :=
  240 <= canvasWidth s /\ 280 <= canvasHeight s
  /\ fontSize * (columns s - 1) < canvasWidth s <= fontSize * columns s
  /\ fontSize * (rows s - 1) < canvasHeight s <= fontSize * rows s.

(** A cell of the live grid: idle, target or locked. *)
Definition ternary (v : Z) : Prop := v = 0 \/ v = 1 \/ v = 2.

(** A text of whitespace and line breaks only. *)
Definition blank (text : jsstring) : Prop :=
  Forall (fun c => isWhiteSpace c = true) text.

(** What a frame may paint for a column of the state [s]: one of the two
    glyphs, in one of the two colours, on a cell boundary inside the width
    of the canvas and not more than one row below the grid. *)
Definition glyphInBounds (s : State) (op : DrawOp) : Prop :=
  exists style g x y,
    op = FillText style g x y
    /\ (style = "#e8ffec"%string \/ style = "#63f28c"%string)
    /\ (g = "0"%string \/ g = "1"%string)
    /\ 0 <= x < canvasWidth s /\ (fontSize | x)
    /\ 0 <= y <= fontSize * (rows s + 1).

(** ** The draws of a frame

    [diffuseFreeze] calls [Math.random()] once for every cell that it finds
    in state 1 or 2, in row-major order; the column loop of [draw] calls it
    once for the glyph of each column and once more for the early reset
    when the cell under the cursor is not locked and the cursor is not
    below the last row. *)

Definition active (v : Z) : bool := (v =? 1) || (v =? 2).

Definition countActive (l : list Z) : nat := length (List.filter active l).

(** The number of draws that [diffuseFreeze] makes before it reaches the
    cell at row [y] and column [x] of the grid [fm]. *)
Definition drawsBefore (fm : list (list Z)) (y x : nat) : nat :=
  (countActive (concat (take y fm))
   + countActive (take x (default [] (fm !! y))))%nat.



(** ** The export confirmation and the status toast (lines 1-46)

    [dialog] and [statusToast] are looked up once when the script loads:
    whether they were found is fixed for the page.  A link is modelled by its
    [href].  The page state is the [open] flag of the dialog, [pendingLink],
    the text and the [show] class of the toast, the number of pending
    [setTimeout] callbacks, and the navigations requested so far (oldest
    first).  [showModal] on a dialog that is already open either returns or
    raises after [pendingLink] is assigned; both leave the same state. *)

Module ExportDialog.

Record Page : Type := mkPage {
  dialogOpen : bool;
  pendingLink : option jsstring;
  toastText : jsstring;
  toastShown : bool;
  timers : nat;
  navigated : list jsstring
}.

(** A handler that returned, or one that raised, with the state it left. *)
Inductive Outcome : Type :=
| Returned (p : Page)
| Raised (p : Page).

Definition stateOf (o : Outcome) : Page :=
  match o with Returned p => p | Raised p => p end.

Inductive PageEvent : Type :=
| ExportClick (href : jsstring)
| CancelClick
| ConfirmClick
| Status (message : jsstring)
| TimerFires.

Definition preparing : jsstring := lit "Preparing your export...".

Section Elements.

(** Whether [getElementById] found the dialog and the toast. *)
Variables dialog statusToast : bool.

(** [showStatus] of part_000: returns at once without a toast element. *)
Definition showStatus (message : jsstring) (p : Page) : Page :=
  if negb statusToast then p
  else mkPage (dialogOpen p) (pendingLink p) message true (S (timers p))
              (navigated p).

(** [showStatus] of static/app.js: no guard, so writing [textContent] of
    [null] raises a TypeError. *)
Definition showStatus_static (message : jsstring) (p : Page) : Outcome :=
  if statusToast then
    Returned (mkPage (dialogOpen p) (pendingLink p) message true
                     (S (timers p)) (navigated p))
  else Raised p.

(** [handleExportClick]: the new state, and whether the default action of
    the click was prevented. *)
Definition handleExportClick (href : jsstring) (p : Page) : Page * bool :=
  if negb dialog then (p, false)
  else (mkPage true (Some href) (toastText p) (toastShown p) (timers p)
               (navigated p), true).

(** A click on an export link: the handler, then the default action of the
    link (following its [href]) unless it was prevented. *)
Definition exportClick (href : jsstring) (p : Page) : Page :=
  let '(p1, prevented) := handleExportClick href p in
  if prevented then p1
  else mkPage (dialogOpen p1) (pendingLink p1) (toastText p1) (toastShown p1)
              (timers p1) (navigated p1 ++ [href]).

(** The handlers of the two buttons are registered only when the dialog
    exists. *)
Definition cancelClick (p : Page) : Page :=
  if negb dialog then p
  else mkPage false None (toastText p) (toastShown p) (timers p) (navigated p).

Definition closeDialog (p : Page) : Page :=
  mkPage false (pendingLink p) (toastText p) (toastShown p) (timers p)
         (navigated p).

Definition follow (href : jsstring) (p : Page) : Page :=
  mkPage (dialogOpen p) None (toastText p) (toastShown p) (timers p)
         (navigated p ++ [href]).

Definition confirmClick (p : Page) : Page :=
  if negb dialog then p
  else
    let p1 := closeDialog p in
    match pendingLink p1 with
    | Some href => follow href (showStatus preparing p1)
    | None => p1
    end.

(** The same handler over [showStatus] of static/app.js. *)
Definition confirmClick_static (p : Page) : Outcome :=
  if negb dialog then Returned p
  else
    let p1 := closeDialog p in
    match pendingLink p1 with
    | Some href =>
        match showStatus_static preparing p1 with
        | Returned p2 => Returned (follow href p2)
        | Raised p2 => Raised p2
        end
    | None => Returned p1
    end.

(** A callback of [setTimeout] removes the [show] class. *)
Definition timerFires (p : Page) : Page :=
  match timers p with
  | O => p
  | S n => mkPage (dialogOpen p) (pendingLink p) (toastText p) false n
                  (navigated p)
  end.

Definition handle (e : PageEvent) (p : Page) : Page :=
  match e with
  | ExportClick href => exportClick href p
  | CancelClick => cancelClick p
  | ConfirmClick => confirmClick p
  | Status message => showStatus message p
  | TimerFires => timerFires p
  end.

(** The page of static/app.js; an exception ends the handler, not the
    page. *)
Definition handle_static (e : PageEvent) (p : Page) : Page :=
  match e with
  | ExportClick href => exportClick href p
  | CancelClick => cancelClick p
  | ConfirmClick => stateOf (confirmClick_static p)
  | Status message => stateOf (showStatus_static message p)
  | TimerFires => timerFires p
  end.

Definition run (es : list PageEvent) (p : Page) : Page :=
  fold_left (fun q e => handle e q) es p.

Definition run_static (es : list PageEvent) (p : Page) : Page :=
  fold_left (fun q e => handle_static e q) es p.

End Elements.

(** The page when the script has loaded. *)
Definition loaded : Page := mkPage false None [] false 0 [].

(** The links clicked and the confirmations given in a sequence of events. *)
Definition clicked (es : list PageEvent) : list jsstring :=
  omap (fun e => match e with ExportClick href => Some href | _ => None end) es.

Definition confirmations (es : list PageEvent) : nat :=
  length (List.filter (fun e => match e with ConfirmClick => true | _ => false end) es).

(** The toast is shown only while a callback that hides it is pending, and
    only when the toast element exists. *)
Definition toastInv (statusToast : bool) (p : Page) : Prop :=
  (toastShown p = true -> (0 < timers p)%nat)
  /\ (statusToast = false -> toastShown p = false /\ timers p = 0%nat).

End ExportDialog.

(** * Proofs *)

(** ** Comparisons and rounding *)

Lemma Qltb_lt (a b : Q) : Qltb a b = true <-> (a < b)%Q.
Proof.
  unfold Qltb. rewrite negb_true_iff. split.
  - intros H. apply Qnot_le_lt. intros Hle.
    apply Qle_bool_iff in Hle. congruence.
  - intros H. destruct (Qle_bool b a) eqn:E; [|reflexivity].
    apply Qle_bool_iff in E. exfalso. exact (Qlt_not_le _ _ H E).
Qed.

Lemma Qltb_ge (a b : Q) : Qltb a b = false <-> (b <= a)%Q.
Proof.
  unfold Qltb. rewrite negb_false_iff. apply Qle_bool_iff.
Qed.

Lemma Qfloor_eq (x y : Q) : (x == y)%Q -> Qfloor x = Qfloor y.
Proof.
  intros H. apply Z.le_antisymm; apply Qfloor_resp_le; rewrite H; apply Qle_refl.
Qed.

(** [Math.ceil(a / b)] on integers, by integer division. *)
Lemma Qceiling_div (a b : Z) :
  0 < b -> Qceiling (inject_Z a / inject_Z b) = - ((- a) / b).
Proof.
  intros Hb. unfold Qceiling. f_equal.
  rewrite (Zdiv_Qdiv (- a) b). apply Qfloor_eq.
  rewrite inject_Z_opp. field.
  intros H0. apply (Qeq_bool_neq (inject_Z b) 0); [|exact H0].
  unfold Qeq_bool. simpl. destruct b; simpl; try lia; reflexivity.
Qed.

Lemma ceil_div_spec (a : Z) :
  let c := Qceiling (inject_Z a / inject_Z fontSize) in
  fontSize * (c - 1) < a <= fontSize * c /\ c = (a + 13) / 14.
Proof.
  cbv zeta. rewrite Qceiling_div by (unfold fontSize; lia).
  unfold fontSize. Z.div_mod_to_equations. lia.
Qed.

(** ** Loops *)

Lemma forEach_inv {A S : Type} (body : A -> S -> option S) (I : S -> Prop) :
  forall (l : list A) (s s' : S),
    (forall a t t', a ∈ l -> I t -> body a t = Some t' -> I t') ->
    I s -> forEach body l s = Some s' -> I s'.
Proof.
  induction l as [|a l IH]; simpl; intros s s' Hbody Hs Hrun.
  - congruence.
  - destruct (body a s) as [t|] eqn:E; [|discriminate].
    apply (IH t s'); [| |exact Hrun].
    + intros b u u' Hb. apply Hbody. by apply list_elem_of_further.
    + eapply Hbody; [apply list_elem_of_here|exact Hs|exact E].
Qed.

Lemma forEach_total {A S : Type} (body : A -> S -> option S) (I : S -> Prop) :
  forall (l : list A) (s : S),
    (forall a t, a ∈ l -> I t -> exists t', body a t = Some t' /\ I t') ->
    I s -> exists s', forEach body l s = Some s' /\ I s'.
Proof.
  induction l as [|a l IH]; simpl; intros s Hbody Hs.
  - eauto.
  - destruct (Hbody a s) as (t & E & Ht); [apply list_elem_of_here|exact Hs|].
    rewrite E. apply IH; [|exact Ht].
    intros b u Hb. apply Hbody. by apply list_elem_of_further.
Qed.

(** In a loop over distinct values, what only the iteration at [a] changes
    is changed by that one iteration. *)
Lemma forEach_one {A S V : Type} (body : A -> S -> option S) (get : S -> V)
    (a : A) :
  forall (l : list A) (s s' : S),
    NoDup l -> a ∈ l ->
    (forall b t t', b <> a -> body b t = Some t' -> get t' = get t) ->
    forEach body l s = Some s' ->
    exists t t', body a t = Some t' /\ get t = get s /\ get s' = get t'.
Proof.
  induction l as [|x l IH]; intros s s' Hnd Hin Hother Hrun.
  - by apply elem_of_nil in Hin.
  - simpl in Hrun. destruct (body x s) as [u|] eqn:E; [|discriminate].
    apply NoDup_cons in Hnd as [Hx Hnd].
    apply elem_of_cons in Hin as [->|Hin].
    + exists s, u. split; [exact E|]. split; [reflexivity|].
      apply (forEach_inv body (fun t => get t = get u) l u s');
        [|reflexivity|exact Hrun].
      intros b t t' Hb Ht Hbt. rewrite <- Ht. apply (Hother b t t'); [|exact Hbt].
      intros ->. contradiction.
    + destruct (IH u s' Hnd Hin Hother Hrun) as (t & t' & Ht & Hg & Hg').
      exists t, t'. split; [exact Ht|]. split; [|exact Hg'].
      rewrite Hg. apply (Hother x s u); [|exact E].
      intros ->. contradiction.
Qed.

Lemma elem_of_upto (n : Z) (i : nat) : i ∈ upto n <-> (i < Z.to_nat n)%nat.
Proof.
  unfold upto. rewrite elem_of_seq. lia.
Qed.

Lemma NoDup_upto (n : Z) : NoDup (upto n).
Proof. apply NoDup_seq. Qed.

(** ** Text normalization *)

Lemma split_lf_nonempty (s : jsstring) : split_lf s <> [].
Proof.
  destruct s as [|c s]; simpl; [discriminate|].
  destruct (c =? 10); [discriminate|].
  destruct (split_lf s); discriminate.
Qed.

Lemma trimEnd_cons (c : Z) (s : jsstring) :
  trimEnd (c :: s) =
  match trimEnd s with
  | [] => if isWhiteSpace c then [] else [c]
  | r => c :: r
  end.
Proof. reflexivity. Qed.

Lemma trimEnd_idempotent (s : jsstring) : trimEnd (trimEnd s) = trimEnd s.
Proof.
  induction s as [|c s IH]; [reflexivity|].
  rewrite trimEnd_cons. destruct (trimEnd s) as [|d r] eqn:E.
  - destruct (isWhiteSpace c) eqn:W; [reflexivity|].
    simpl. rewrite W. reflexivity.
  - rewrite trimEnd_cons, IH. reflexivity.
Qed.

Lemma split_lf_cons (c : Z) (s : jsstring) :
  split_lf (c :: s) =
  if c =? 10 then [] :: split_lf s
  else match split_lf s with
       | l :: ls => (c :: l) :: ls
       | [] => [[c]]
       end.
Proof. reflexivity. Qed.

(** Trimming the end of the whole text only removes blank lines from the
    end of the trimmed segments. *)
Lemma split_trimEnd (s : jsstring) :
  exists k : nat,
    List.map trimEnd (split_lf s)
    = List.map trimEnd (split_lf (trimEnd s)) ++ replicate k [].
Proof.
  induction s as [|c s (k & IH)]; [exists 0%nat; reflexivity|].
  rewrite trimEnd_cons, (split_lf_cons c s).
  destruct (trimEnd s) as [|d r] eqn:E.
  - cbn [split_lf List.map app] in IH. destruct (c =? 10) eqn:C.
    + apply Z.eqb_eq in C. subst c. cbn [isWhiteSpace Z.eqb orb].
      exists (S k). cbn [List.map split_lf app replicate]. rewrite IH.
      reflexivity.
    + destruct (split_lf s) as [|l ls] eqn:Es;
        [by apply split_lf_nonempty in Es|].
      cbn [List.map] in IH. injection IH as Hl Hls.
      exists k. cbn [List.map]. rewrite trimEnd_cons, Hl, Hls.
      destruct (isWhiteSpace c) eqn:W; [reflexivity|].
      rewrite (split_lf_cons c []), C. cbn [split_lf List.map app].
      rewrite trimEnd_cons. cbn [trimEnd]. rewrite W. reflexivity.
  - rewrite (split_lf_cons c (d :: r)). destruct (c =? 10) eqn:C.
    + exists k. cbn [List.map app]. rewrite IH. reflexivity.
    + destruct (split_lf s) as [|l ls] eqn:Es;
        [by apply split_lf_nonempty in Es|].
      destruct (split_lf (d :: r)) as [|l' ls'] eqn:Er;
        [by apply split_lf_nonempty in Er|].
      cbn [List.map app] in IH. injection IH as Hl Hls.
      exists k. cbn [List.map app]. rewrite !trimEnd_cons, Hl, Hls.
      reflexivity.
Qed.

Lemma filter_blank_tail (ls : list jsstring) (k : nat) :
  List.filter nonEmpty (ls ++ replicate k []) = List.filter nonEmpty ls.
Proof.
  rewrite List.filter_app.
  replace (List.filter nonEmpty (replicate k [])) with (@nil jsstring).
  - apply app_nil_r.
  - induction k as [|k IH]; [reflexivity|exact IH].
Qed.

Lemma lineList_trimStart (text : jsstring) :
  lineList text = spec_normalize (trimStart text).
Proof.
  unfold lineList, spec_normalize, trim.
  destruct (split_trimEnd (trimStart text)) as (k & Hk).
  rewrite Hk, filter_blank_tail. reflexivity.
Qed.

Lemma lineList_lines (text : jsstring) :
  Forall (fun line => line <> [] /\ trimEnd line = line) (lineList text).
Proof.
  unfold lineList. apply Forall_take. apply Forall_forall.
  intros line Hin. apply list_elem_of_In, List.filter_In in Hin as [Hin Hne].
  apply List.in_map_iff in Hin as (seg & <- & _). split.
  - intros E. rewrite E in Hne. discriminate.
  - apply trimEnd_idempotent.
Qed.

Lemma lines_cases (text : jsstring) :
  lines text =
  match lineList text with
  | [] => [defaultPhrase]
  | _ => lineList text
  end.
Proof.
  unfold lines. destruct (lineList text); reflexivity.
Qed.

Lemma lines_nonblank (text : jsstring) :
  Forall (fun line => line <> [] /\ trimEnd line = line) (lines text).
Proof.
  rewrite lines_cases. pose proof (lineList_lines text) as H.
  destruct (lineList text); [|exact H].
  constructor; [split; [discriminate|reflexivity]|constructor].
Qed.

Lemma lines_length (text : jsstring) :
  (1 <= length (lines text) <= 6)%nat.
Proof.
  rewrite lines_cases. destruct (lineList text) as [|l ls] eqn:E; [simpl; lia|].
  rewrite <- E. unfold lineList in *. rewrite length_take. split; [|lia].
  destruct (List.filter nonEmpty (List.map trimEnd (split_lf (trim text))));
    [discriminate|simpl; lia].
Qed.

(** ** Font size *)

Lemma maxLen_longest (ls : list jsstring) : maxLen ls = Z.max 1 (longestLine ls).
Proof.
  unfold maxLen, longestLine. induction ls as [|l ls IH]; [reflexivity|].
  simpl. rewrite IH. lia.
Qed.

Lemma longestLine_pos (ls : list jsstring) :
  ls <> [] -> Forall (fun line => line <> []) ls -> 1 <= longestLine ls.
Proof.
  intros Hne Hall. destruct ls as [|l ls]; [congruence|].
  apply Forall_cons in Hall as [Hl _]. simpl.
  destruct l; [congruence|]. simpl length. lia.
Qed.


(** ** Grids *)

Lemma zeroGrid_shape (r c : Z) :
  length (zeroGrid r c) = Z.to_nat r
  /\ Forall (fun line => length line = Z.to_nat c) (zeroGrid r c)
  /\ Forall (Forall binary) (zeroGrid r c).
Proof.
  unfold zeroGrid. split; [apply length_replicate|]. split.
  - apply Forall_replicate, length_replicate.
  - apply Forall_replicate, Forall_replicate. by left.
Qed.

Lemma writeCell_total (y x : nat) (v : Z) (grid : list (list Z)) :
  (y < length grid)%nat -> exists grid', writeCell y x v grid = Some grid'.
Proof.
  intros Hy. unfold writeCell.
  destruct (lookup_lt_is_Some_2 grid y Hy) as [line ->]. eauto.
Qed.

Lemma writeCell_shape (y x : nat) (v : Z) (c : nat) (grid grid' : list (list Z)) :
  writeCell y x v grid = Some grid' ->
  length grid' = length grid
  /\ (Forall (fun line => length line = c) grid ->
      Forall (fun line => length line = c) grid').
Proof.
  unfold writeCell. destruct (grid !! y) as [line|] eqn:E; [|discriminate].
  intros [= <-]. split; [apply length_insert|].
  intros H. apply Forall_insert; [exact H|].
  rewrite length_insert. exact (proj1 (Forall_lookup _ _) H y line E).
Qed.

Lemma writeCell_cells (P : Z -> Prop) (y x : nat) (v : Z)
    (grid grid' : list (list Z)) :
  writeCell y x v grid = Some grid' -> P v ->
  Forall (Forall P) grid -> Forall (Forall P) grid'.
Proof.
  unfold writeCell. destruct (grid !! y) as [line|] eqn:E; [|discriminate].
  intros [= <-] Hv H. apply Forall_insert; [exact H|].
  apply Forall_insert; [|exact Hv].
  exact (proj1 (Forall_lookup _ _) H y line E).
Qed.

Lemma getCell_writeCell_same (y x : nat) (v : Z) (grid grid' : list (list Z)) :
  writeCell y x v grid = Some grid' -> is_Some (getCell grid y x) ->
  getCell grid' y x = Some v.
Proof.
  unfold writeCell, getCell. destruct (grid !! y) as [line|] eqn:E; [|discriminate].
  intros [= <-] Hx. apply lookup_lt_is_Some_1 in Hx.
  rewrite list_lookup_insert_eq by (by eapply lookup_lt_Some).
  by apply list_lookup_insert_eq.
Qed.

Lemma getCell_writeCell_other (y x y' x' : nat) (v : Z)
    (grid grid' : list (list Z)) :
  writeCell y x v grid = Some grid' -> (y', x') <> (y, x) ->
  getCell grid' y' x' = getCell grid y' x'.
Proof.
  unfold writeCell, getCell. destruct (grid !! y) as [line|] eqn:E; [|discriminate].
  intros [= <-] Hne. destruct (decide (y' = y)) as [->|Hy].
  - rewrite list_lookup_insert_eq by (by eapply lookup_lt_Some).
    rewrite E. apply list_lookup_insert_ne. congruence.
  - by rewrite list_lookup_insert_ne.
Qed.

(** ** [resizeCanvas] *)

Lemma floor_scaled (r : Q) (n : Z) :
  (0 <= r)%Q -> (r < 1)%Q -> 0 < n -> 0 <= Qfloor (r * inject_Z n) < n.
Proof.
  intros H0 H1 Hn.
  assert (Hq : (inject_Z 0 < inject_Z n)%Q) by (by rewrite <- Zlt_Qlt).
  split.
  - change 0 with (Qfloor 0). apply Qfloor_resp_le.
    apply Qmult_le_0_compat; [exact H0|by apply Qlt_le_weak].
  - rewrite Zlt_Qlt. eapply Qle_lt_trans; [apply Qfloor_le|].
    apply (Qlt_le_trans _ (1 * inject_Z n)%Q).
    + by apply Qmult_lt_compat_r.
    + rewrite Qmult_1_l. apply Qle_refl.
Qed.

Lemma resizeCanvas_grid_pos (rnd : nat -> Q) (w h : Q) (s : State) :
  18 <= columns (resizeCanvas rnd w h s) /\ 20 <= rows (resizeCanvas rnd w h s).
Proof.
  simpl.
  destruct (ceil_div_spec (Z.max (Qfloor w) 240)) as [_ ->].
  destruct (ceil_div_spec (Z.max (Qfloor h) 280)) as [_ ->].
  split; Z.div_mod_to_equations; lia.
Qed.

Lemma resizeCanvas_shaped (rnd : nat -> Q) (w h : Q) (s : State) :
  shaped (resizeCanvas rnd w h s).
Proof.
  pose proof (resizeCanvas_grid_pos rnd w h s) as [Hc Hr].
  unfold shaped. split; [lia|]. split; [lia|].
  split; [simpl; unfold upto; by rewrite length_map, length_seq|].
  simpl. split; apply zeroGrid_shape.
Qed.

Lemma resizeCanvas_cursors (rnd : nat -> Q) (w h : Q) (s : State) :
  unitDraws rnd ->
  Forall (fun d => 0 <= d < rows (resizeCanvas rnd w h s))
         (drops (resizeCanvas rnd w h s)).
Proof.
  intros Hrnd. pose proof (resizeCanvas_grid_pos rnd w h s) as [_ Hr].
  simpl in *. apply Forall_forall. intros d Hd.
  apply list_elem_of_In, List.in_map_iff in Hd as (i & <- & _).
  destruct (Hrnd (seed s + i)%nat) as [H0 H1].
  apply floor_scaled; [exact H0|exact H1|lia].
Qed.

(** ** [drawTargetToMap] *)

Lemma fillTarget_spec (columns rows : Z) (imageData : list Z) :
  exists target,
    fillTarget columns rows imageData = Some target
    /\ length target = Z.to_nat rows
    /\ Forall (fun line => length line = Z.to_nat columns) target
    /\ Forall (Forall binary) target.
Proof.
  unfold fillTarget.
  set (I := fun t : list (list Z) =>
              length t = Z.to_nat rows
              /\ Forall (fun line => length line = Z.to_nat columns) t
              /\ Forall (Forall binary) t).
  apply (forEach_total _ I); [|apply zeroGrid_shape].
  intros y t Hy Ht. apply elem_of_upto in Hy.
  apply (forEach_total _ I); [|exact Ht].
  intros x u _ (Hl & Hs & Hb).
  destruct (writeCell_total y x
              (if opaque imageData ((Z.of_nat y * columns + Z.of_nat x) * 4)
               then 1 else 0) u) as [u' Hu]; [lia|].
  exists u'. split; [exact Hu|].
  destruct (writeCell_shape _ _ _ (Z.to_nat columns) _ _ Hu) as [Hl' Hs'].
  split; [lia|]. split; [by apply Hs'|].
  apply (writeCell_cells binary _ _ _ _ _ Hu); [|exact Hb].
  destruct (opaque _ _); [by right|by left].
Qed.

Lemma getCell_zeroGrid (r c : Z) (y x : nat) :
  (y < Z.to_nat r)%nat -> (x < Z.to_nat c)%nat ->
  getCell (zeroGrid r c) y x = Some 0.
Proof.
  intros Hy Hx. unfold getCell, zeroGrid.
  rewrite lookup_replicate_2 by exact Hy. by apply lookup_replicate_2.
Qed.

(** Every cell of the target is written once, from the alpha byte of its
    pixel. *)
Lemma fillTarget_cell (columns rows : Z) (imageData : list Z)
    (target : list (list Z)) (y x : nat) :
  fillTarget columns rows imageData = Some target ->
  (y < Z.to_nat rows)%nat -> (x < Z.to_nat columns)%nat ->
  getCell target y x
  = Some (if opaque imageData ((Z.of_nat y * columns + Z.of_nat x) * 4)
          then 1 else 0).
Proof.
  unfold fillTarget. intros Hrun Hy Hx.
  set (write := fun (y x : nat) (t : list (list Z)) =>
                  writeCell y x
                    (if opaque imageData
                          ((Z.of_nat y * columns + Z.of_nat x) * 4)
                     then 1 else 0) t) in *.
  destruct (forEach_one (fun y => forEach (write y) (upto columns))
              (fun t => getCell t y x) y (upto rows) (zeroGrid rows columns)
              target)
    as (t & t' & Hrow & Ht & Ht');
    [apply NoDup_upto|by apply elem_of_upto| |exact Hrun|].
  { intros b u u' Hb. apply (forEach_inv _ (fun w => getCell w y x = getCell u y x));
      [|reflexivity].
    intros a w w' _ Hw Ha. rewrite <- Hw.
    apply (getCell_writeCell_other b a y x _ w w' Ha). congruence. }
  destruct (forEach_one (write y) (fun t => getCell t y x) x (upto columns) t t')
    as (u & u' & Hcell & Hu & Hu');
    [apply NoDup_upto|by apply elem_of_upto| |exact Hrow|].
  { intros b w w' Hb Ha.
    apply (getCell_writeCell_other y b y x _ w w' Ha). congruence. }
  rewrite Ht', Hu'. apply (getCell_writeCell_same y x _ u u' Hcell).
  rewrite Hu, Ht, getCell_zeroGrid by assumption. eauto.
Qed.

Lemma drawTargetToMap_retarget (localCtx : Offscreen) (text : jsstring)
    (s : State) :
  0 < columns s -> 0 < rows s ->
  exists target,
    drawTargetToMap (Some localCtx) text s = Some (setFreezeMap target s)
    /\ fillTarget (columns s) (rows s)
         (localCtx (columns s) (rows s)
            (textSize (columns s) (rows s) (lines text))
            (textCalls (columns s) (rows s)
               (textSize (columns s) (rows s) (lines text)) (lines text)))
       = Some target
    /\ length target = Z.to_nat (rows s)
    /\ Forall (fun line => length line = Z.to_nat (columns s)) target
    /\ Forall (Forall binary) target.
Proof.
  intros Hc Hr. unfold drawTargetToMap.
  replace ((columns s <=? 0) || (rows s <=? 0)) with false
    by (symmetry; apply orb_false_iff; split; apply Z.leb_gt; assumption).
  destruct (fillTarget_spec (columns s) (rows s)
              (localCtx (columns s) (rows s)
                 (textSize (columns s) (rows s) (lines text))
                 (textCalls (columns s) (rows s)
                    (textSize (columns s) (rows s) (lines text)) (lines text))))
    as (target & E & H).
  exists target. rewrite E. split; [reflexivity|]. split; [reflexivity|exact H].
Qed.

Lemma drawTargetToMap_frame (off : option Offscreen) (text : jsstring)
    (s s' : State) :
  drawTargetToMap off text s = Some s' ->
  columns s' = columns s /\ rows s' = rows s /\ drops s' = drops s
  /\ seed s' = seed s /\ painted s' = painted s
  /\ canvasWidth s' = canvasWidth s /\ canvasHeight s' = canvasHeight s.
Proof.
  unfold drawTargetToMap. destruct off as [localCtx|].
  - destruct ((columns s <=? 0) || (rows s <=? 0)); [discriminate|].
    destruct (fillTarget _ _ _); [|discriminate].
    intros [= <-]. repeat split.
  - intros [= <-]. repeat split.
Qed.

Lemma drawTargetToMap_shaped (off : option Offscreen) (text : jsstring)
    (s : State) :
  shaped s -> exists s', drawTargetToMap off text s = Some s' /\ shaped s'.
Proof.
  intros Hs. destruct off as [localCtx|]; [|exists s; by split].
  destruct Hs as (Hc & Hr & Hd & _).
  destruct (drawTargetToMap_retarget localCtx text s Hc Hr)
    as (target & -> & _ & Hl & Hsh & _).
  eexists. split; [reflexivity|]. unfold shaped. simpl. by repeat split.
Qed.

(** ** [diffuseFreeze] *)

Lemma diffuseCell_cases (rnd : nat -> Q) (y x : nat) (s s' : State) :
  diffuseCell rnd y x s = Some s' ->
  (s' = s \/ s' = snd (Math_random rnd s)
   \/ exists v fm, writeCell y x v (freezeMap s) = Some fm
                   /\ s' = setFreezeMap fm (snd (Math_random rnd s))).
Proof.
  unfold diffuseCell. destruct (freezeMap s !! y) as [line|]; [|discriminate].
  destruct (line !! x) as [v|]; [|intros [= <-]; by left].
  destruct (v =? 1).
  - cbn [Math_random]. destruct (Qltb _ _).
    + cbn [freezeMap]. destruct (writeCell y x 2 (freezeMap s)) as [fm|] eqn:E;
        [|discriminate].
      intros [= <-]. right. right. by exists 2, fm.
    + intros [= <-]. right. by left.
  - destruct (v =? 2); [|intros [= <-]; by left].
    cbn [Math_random]. destruct (Qltb _ _).
    + cbn [freezeMap]. destruct (writeCell y x 1 (freezeMap s)) as [fm|] eqn:E;
        [|discriminate].
      intros [= <-]. right. right. by exists 1, fm.
    + intros [= <-]. right. by left.
Qed.

Lemma diffuseCell_frame (rnd : nat -> Q) (y x : nat) (s s' : State) :
  diffuseCell rnd y x s = Some s' ->
  sameRain s s'
  /\ length (freezeMap s') = length (freezeMap s)
  /\ forall c, Forall (fun line => length line = c) (freezeMap s) ->
               Forall (fun line => length line = c) (freezeMap s').
Proof.
  intros H. apply diffuseCell_cases in H as [->|[->|(v & fm & Hw & ->)]].
  - by repeat split.
  - by repeat split.
  - split; [by repeat split|]. simpl. split.
    + exact (proj1 (writeCell_shape _ _ _ 0%nat _ _ Hw)).
    + intros c. exact (proj2 (writeCell_shape _ _ _ c _ _ Hw)).
Qed.

Lemma diffuseCell_other (rnd : nat -> Q) (y x y' x' : nat) (s s' : State) :
  diffuseCell rnd y x s = Some s' -> (y', x') <> (y, x) ->
  getCell (freezeMap s') y' x' = getCell (freezeMap s) y' x'.
Proof.
  intros H Hne. apply diffuseCell_cases in H as [->|[->|(v & fm & Hw & ->)]];
    [reflexivity|reflexivity|].
  simpl. by eapply getCell_writeCell_other.
Qed.

Lemma diffuseCell_same (rnd : nat -> Q) (y x : nat) (s s' : State) (v : Z) :
  diffuseCell rnd y x s = Some s' ->
  getCell (freezeMap s) y x = Some v ->
  getCell (freezeMap s') y x = Some (automaton v (rnd (seed s))).
Proof.
  unfold diffuseCell, getCell, automaton.
  destruct (freezeMap s !! y) as [line|] eqn:Ey; [|discriminate].
  intros H Hv. rewrite Hv in H.
  assert (Hc : is_Some (getCell (freezeMap s) y x))
    by (unfold getCell; rewrite Ey, Hv; eauto).
  unfold freezeSpeed in H. cbn [Math_random freezeMap] in H.
  destruct (v =? 1) eqn:E1.
  - apply Z.eqb_eq in E1. subst v. destruct (Qltb _ _).
    + destruct (writeCell y x 2 (freezeMap s)) as [fm|] eqn:E; [|discriminate].
      injection H as <-. exact (getCell_writeCell_same _ _ _ _ _ E Hc).
    + injection H as <-. simpl. by rewrite Ey.
  - destruct (v =? 2) eqn:E2.
    + apply Z.eqb_eq in E2. subst v. destruct (Qltb _ _).
      * destruct (writeCell y x 1 (freezeMap s)) as [fm|] eqn:E; [|discriminate].
        injection H as <-. exact (getCell_writeCell_same _ _ _ _ _ E Hc).
      * injection H as <-. simpl. by rewrite Ey.
    + injection H as <-. by rewrite Ey.
Qed.

Lemma diffuseCell_total (rnd : nat -> Q) (y x : nat) (s : State) :
  (y < length (freezeMap s))%nat -> exists s', diffuseCell rnd y x s = Some s'.
Proof.
  intros Hy. unfold diffuseCell.
  destruct (lookup_lt_is_Some_2 _ _ Hy) as [line ->].
  destruct (line !! x) as [v|]; [|eauto].
  cbn [Math_random freezeMap].
  destruct (writeCell_total y x 2 (freezeMap s) Hy) as [fm2 ->].
  destruct (writeCell_total y x 1 (freezeMap s) Hy) as [fm1 ->].
  destruct (v =? 1); [destruct (Qltb _ _); eauto|].
  destruct (v =? 2); [destruct (Qltb _ _); eauto|eauto].
Qed.

Lemma diffusing_refl (s : State) : diffusing s s.
Proof. by repeat split. Qed.

Lemma diffusing_trans (s t u : State) :
  diffusing s t -> diffusing t u -> diffusing s u.
Proof.
  intros ((A1 & A2 & A3 & A4 & A5 & A6) & Al & Af)
         ((B1 & B2 & B3 & B4 & B5 & B6) & Bl & Bf).
  repeat split; try congruence. intros c H. by apply Bf, Af.
Qed.

Lemma diffuseRow_inv (rnd : nat -> Q) (y : nat) (l : list nat) (s s' : State) :
  forEach (fun x => diffuseCell rnd y x) l s = Some s' -> diffusing s s'.
Proof.
  apply (forEach_inv _ (diffusing s)); [|apply diffusing_refl].
  intros x t t' _ Ht Hx. apply (diffusing_trans s t t' Ht).
  exact (diffuseCell_frame rnd y x t t' Hx).
Qed.

Lemma diffuseRows_inv (rnd : nat -> Q) (cols : list nat) (l : list nat)
    (s s' : State) :
  forEach (fun y => forEach (fun x => diffuseCell rnd y x) cols) l s = Some s' ->
  diffusing s s'.
Proof.
  apply (forEach_inv _ (diffusing s)); [|apply diffusing_refl].
  intros y t t' _ Ht Hy. apply (diffusing_trans s t t' Ht).
  exact (diffuseRow_inv rnd y cols t t' Hy).
Qed.

Lemma diffuseFreeze_total (rnd : nat -> Q) (s : State) :
  length (freezeMap s) = Z.to_nat (rows s) ->
  exists s', diffuseFreeze rnd s = Some s' /\ diffusing s s'.
Proof.
  intros Hl. unfold diffuseFreeze.
  apply (forEach_total _ (diffusing s)); [|apply diffusing_refl].
  intros y t Hy Ht. apply elem_of_upto in Hy.
  destruct (forEach_total (fun x => diffuseCell rnd y x) (diffusing s)
              (upto (columns s)) t) as (t' & Ht' & Hd); [|exact Ht|eauto].
  intros x u _ Hu.
  destruct (diffuseCell_total rnd y x u) as [u' Hu'].
  - destruct Hu as (_ & -> & _). lia.
  - exists u'. split; [exact Hu'|]. apply (diffusing_trans s u u' Hu).
    exact (diffuseCell_frame rnd y x u u' Hu').
Qed.

(** Each cell of the grid takes exactly one step of the automaton, on one
    of the draws of the frame. *)
Lemma diffuseFreeze_cell (rnd : nat -> Q) (s s' : State) (y x : nat) (v : Z) :
  diffuseFreeze rnd s = Some s' ->
  (y < Z.to_nat (rows s))%nat -> (x < Z.to_nat (columns s))%nat ->
  getCell (freezeMap s) y x = Some v ->
  exists k, getCell (freezeMap s') y x = Some (automaton v (rnd k)).
Proof.
  unfold diffuseFreeze. intros Hrun Hy Hx Hv.
  destruct (forEach_one
              (fun y => forEach (fun x => diffuseCell rnd y x) (upto (columns s)))
              (fun t => getCell (freezeMap t) y x) y (upto (rows s)) s s')
    as (t & t' & Hrow & Ht & Ht'); [apply NoDup_upto|by apply elem_of_upto| |exact Hrun|].
  { intros b u u' Hb. apply (forEach_inv _ (fun w => getCell (freezeMap w) y x
                                               = getCell (freezeMap u) y x));
      [|reflexivity].
    intros a w w' _ Hw Ha. rewrite <- Hw.
    apply (diffuseCell_other rnd b a y x w w' Ha). congruence. }
  destruct (forEach_one (fun x => diffuseCell rnd y x)
              (fun t => getCell (freezeMap t) y x) x (upto (columns s)) t t')
    as (u & u' & Hcell & Hu & Hu'); [apply NoDup_upto|by apply elem_of_upto| |exact Hrow|].
  { intros b w w' Hb Ha. apply (diffuseCell_other rnd y b y x w w' Ha). congruence. }
  exists (seed u). rewrite Ht', Hu'.
  apply (diffuseCell_same rnd y x u u' v Hcell). by rewrite Hu, Ht.
Qed.

(** ** The column loop of [draw] *)

Lemma advance_spec (rnd : nat -> Q) (row : Z) (s : State) :
  advance rnd row s
  = if rows s <? row then (0, s)
    else (spec_advance (rows s) row (Qltb (975 # 1000) (rnd (seed s))),
          snd (Math_random rnd s)).
Proof.
  unfold advance, spec_advance. destruct (rows s <? row); reflexivity.
Qed.

Lemma drawColumn_spec (rnd : nat -> Q) (c : nat) (s s' : State) :
  drawColumn rnd c s = Some s' ->
  exists row k k',
    drops s !! c = Some row
    /\ sameGrid s s'
    /\ painted s' = painted s ++ [glyphOp (freezeMap s) c row (rnd k)]
    /\ drops s' = <[c := nextCursor s c row (rnd k')]> (drops s).
Proof.
  unfold drawColumn, nextCursor, glyphOp, glyphStyle.
  destruct (drops s !! c) as [row|] eqn:Ed; [|discriminate].
  destruct (cellState (freezeMap s) row c =? 2) eqn:El; cbn [Math_random].
  - intros [= <-]. exists row, (seed s), 0%nat. simpl. rewrite El.
    split; [reflexivity|]. split; [by repeat split|]. split; [reflexivity|].
    symmetry. by apply list_insert_id.
  - rewrite advance_spec. cbn [rows paint seed Math_random snd].
    unfold spec_advance. destruct (rows s <? row) eqn:Er.
    + intros [= <-]. exists row, (seed s), 0%nat. simpl. rewrite El, Er.
      split; [reflexivity|]. split; [by repeat split|]. by split.
    + intros [= <-]. exists row, (seed s), (S (seed s)). simpl. rewrite El, Er.
      split; [reflexivity|]. split; [by repeat split|]. by split.
Qed.

Lemma drawColumn_total (rnd : nat -> Q) (c : nat) (s : State) :
  (c < length (drops s))%nat -> exists s', drawColumn rnd c s = Some s'.
Proof.
  intros Hc. unfold drawColumn.
  destruct (lookup_lt_is_Some_2 _ _ Hc) as [row ->].
  destruct (cellState (freezeMap s) row c =? 2); cbn [Math_random]; [eauto|].
  rewrite advance_spec. destruct (rows _ <? row); eauto.
Qed.

Lemma drawColumns_spec (rnd : nat -> Q) :
  forall (n a : nat) (s s' : State),
    forEach (drawColumn rnd) (seq a n) s = Some s' ->
    sameGrid s s'
    /\ length (drops s') = length (drops s)
    /\ (forall c, (c < a \/ a + n <= c)%nat -> drops s' !! c = drops s !! c)
    /\ exists ops,
         painted s' = painted s ++ ops /\ length ops = n
         /\ forall i, (i < n)%nat ->
              exists row k k',
                drops s !! (a + i)%nat = Some row
                /\ ops !! i = Some (glyphOp (freezeMap s) (a + i) row (rnd k))
                /\ drops s' !! (a + i)%nat
                   = Some (nextCursor s (a + i) row (rnd k')).
Proof.
  induction n as [|n IH]; intros a s s' Hrun.
  - injection Hrun as <-. split; [by repeat split|]. split; [reflexivity|].
    split; [reflexivity|]. exists []. split; [by rewrite app_nil_r|].
    split; [reflexivity|]. intros i Hi. lia.
  - cbn [seq forEach] in Hrun.
    destruct (drawColumn rnd a s) as [s1|] eqn:E1; [|discriminate].
    destruct (drawColumn_spec rnd a s s1 E1)
      as (row & k & k' & Hrow & (G1 & G2 & G3 & G4 & G5) & Hp & Hd).
    destruct (IH (S a) s1 s' Hrun)
      as ((F1 & F2 & F3 & F4 & F5) & Hlen & Hfar & ops & Hops & Hn & Hall).
    split; [repeat split; congruence|].
    split; [rewrite Hlen, Hd; apply length_insert|].
    split.
    { intros c Hc. rewrite Hfar by lia. rewrite Hd.
      apply list_lookup_insert_ne. lia. }
    exists (glyphOp (freezeMap s) a row (rnd k) :: ops).
    split; [rewrite Hops, Hp, <- app_assoc; reflexivity|].
    split; [simpl; lia|].
    intros [|j] Hj.
    + exists row, k, k'. rewrite Nat.add_0_r. split; [exact Hrow|].
      split; [reflexivity|]. rewrite Hfar by lia. rewrite Hd.
      apply list_lookup_insert_eq. by eapply lookup_lt_Some.
    + destruct (Hall j) as (row' & m & m' & Hr' & Ho' & Hd'); [lia|].
      replace (a + S j)%nat with (S a + j)%nat by lia.
      exists row', m, m'. split.
      { rewrite <- Hr', Hd. symmetry. apply list_lookup_insert_ne. lia. }
      split.
      { simpl. rewrite Ho'. unfold glyphOp. by rewrite G3. }
      rewrite Hd'. unfold nextCursor. by rewrite G3, G2.
Qed.

Lemma drawColumns_total (rnd : nat -> Q) (s : State) (l : list nat) :
  (forall c, c ∈ l -> (c < length (drops s))%nat) ->
  exists s', forEach (drawColumn rnd) l s = Some s'.
Proof.
  intros Hl.
  destruct (forEach_total (drawColumn rnd)
              (fun t => length (drops t) = length (drops s)) l s)
    as (s' & Hs' & _); [|reflexivity|eauto].
  intros c t Hc Ht. destruct (drawColumn_total rnd c t) as [t' Ht'].
  - rewrite Ht. by apply Hl.
  - exists t'. split; [exact Ht'|].
    destruct (drawColumn_spec rnd c t t' Ht') as (row & k & k' & _ & _ & _ & ->).
    by rewrite length_insert.
Qed.

(** ** One frame *)

Lemma draw_inv (rnd : nat -> Q) (s s' : State) :
  draw rnd s = Some s' ->
  exists s1 ops,
    forEach (drawColumn rnd) (upto (columns s))
      (paint (FillRect "rgba(0, 10, 4, 0.18)" 0 0 (canvasWidth s) (canvasHeight s)) s)
    = Some s1
    /\ diffuseFreeze rnd s1 = Some s'
    /\ sameGrid s s1
    /\ columns s' = columns s /\ rows s' = rows s
    /\ length (drops s') = length (drops s)
    /\ painted s'
       = painted s
         ++ FillRect "rgba(0, 10, 4, 0.18)" 0 0 (canvasWidth s) (canvasHeight s)
         :: ops
    /\ length ops = Z.to_nat (columns s)
    /\ forall c, (c < Z.to_nat (columns s))%nat ->
         exists row k k',
           drops s !! c = Some row
           /\ ops !! c = Some (glyphOp (freezeMap s) c row (rnd k))
           /\ drops s' !! c = Some (nextCursor s c row (rnd k')).
Proof.
  unfold draw. cbn [columns paint].
  set (s0 := paint _ s).
  destruct (forEach (drawColumn rnd) (upto (columns s)) s0) as [s1|] eqn:E1;
    [|discriminate].
  intros Hdiff. exists s1.
  destruct (drawColumns_spec rnd _ _ _ _ E1)
    as ((G1 & G2 & G3 & G4 & G5) & Hlen & _ & ops & Hops & Hn & Hall).
  destruct (diffuseRows_inv rnd _ _ _ _ Hdiff)
    as ((D1 & D2 & D3 & D4 & D5 & D6) & _ & _).
  exists ops. split; [reflexivity|]. split; [exact Hdiff|].
  split; [by repeat split|].
  split; [by rewrite D1, G1|]. split; [by rewrite D2, G2|].
  split; [by rewrite D3, Hlen|].
  split; [rewrite D4, Hops; subst s0; simpl; by rewrite <- app_assoc|].
  split; [exact Hn|].
  intros c Hc. destruct (Hall c Hc) as (row & k & k' & Hr & Ho & Hd).
  exists row, k, k'. rewrite D3. by repeat split.
Qed.

Lemma draw_total (rnd : nat -> Q) (s : State) :
  shaped s -> exists s', draw rnd s = Some s' /\ shaped s'.
Proof.
  intros (Hc & Hr & Hd & Hl & Hf). unfold draw. cbn [columns paint].
  set (s0 := paint _ s).
  destruct (drawColumns_total rnd s0 (upto (columns s))) as [s1 E1].
  { intros c Hin. apply elem_of_upto in Hin. subst s0. simpl. lia. }
  rewrite E1.
  destruct (drawColumns_spec rnd _ _ _ _ E1)
    as ((G1 & G2 & G3 & G4 & G5) & Hlen & _).
  destruct (diffuseFreeze_total rnd s1) as (s' & Hs' & (D1 & D2 & D3 & _) & Dl & Df).
  { rewrite G3, G2. exact Hl. }
  exists s'. split; [exact Hs'|]. unfold shaped.
  rewrite D1, D2, D3, Dl, G1, G2, G3, Hlen.
  repeat split; try assumption.
  apply Df. rewrite G3. exact Hf.
Qed.

(** ** Reachable states *)

Lemma reachable_shaped (rnd : nat -> Q) (s : State) :
  reachable rnd s -> shaped s.
Proof.
  induction 1 as [cw ch w h off s Hs|e s s' _ IH Hs].
  - unfold startup in Hs.
    destruct (drawTargetToMap_shaped off defaultPhrase
                (resizeCanvas rnd w h (initialState cw ch))
                (resizeCanvas_shaped rnd w h _)) as (t & Ht & Hsh).
    congruence.
  - destruct e as [|off value|w h off value]; simpl in Hs.
    + destruct (draw_total rnd s IH) as (t & Ht & Hsh). congruence.
    + destruct (drawTargetToMap_shaped off (or_else value defaultPhrase) s IH)
        as (t & Ht & Hsh). congruence.
    + destruct (drawTargetToMap_shaped off (or_else value defaultPhrase)
                  (resizeCanvas rnd w h s) (resizeCanvas_shaped rnd w h s))
        as (t & Ht & Hsh). congruence.
Qed.

Lemma cellState_outside (fm : list (list Z)) (row : Z) (column : nat) :
  row < 0 \/ Z.of_nat (length fm) <= row -> cellState fm row column = 0.
Proof.
  intros H. unfold cellState, lookupZ. destruct (row <? 0) eqn:E; [reflexivity|].
  apply Z.ltb_ge in E. rewrite lookup_ge_None_2 by lia. reflexivity.
Qed.

Lemma nextCursor_cases (s : State) (c : nat) (row : Z) (r : Q) :
  length (freezeMap s) = Z.to_nat (rows s) -> 0 < rows s ->
  (nextCursor s c row r = row \/ nextCursor s c row r = 0
   \/ nextCursor s c row r = row + 1)
  /\ (rows s < row -> nextCursor s c row r = 0)
  /\ (0 <= row <= rows s + 1 -> 0 <= nextCursor s c row r <= rows s + 1).
Proof.
  intros Hl Hr. unfold nextCursor, spec_advance.
  destruct (Z.ltb_spec (rows s) row) as [Hlt|Hge].
  - rewrite cellState_outside by lia. simpl. repeat split; auto; lia.
  - destruct (cellState (freezeMap s) row c =? 2); simpl.
    + repeat split; auto; lia.
    + destruct (Qltb _ r); repeat split; auto; lia.
Qed.

Lemma reachable_cursors (rnd : nat -> Q) (s : State) :
  unitDraws rnd -> reachable rnd s -> cursorsBounded s.
Proof.
  intros Hrnd. unfold cursorsBounded.
  assert (Hresize : forall w h t off text u,
             drawTargetToMap off text (resizeCanvas rnd w h t) = Some u ->
             Forall (fun d => 0 <= d <= rows u + 1) (drops u)).
  { intros w h t off text u Hu.
    destruct (drawTargetToMap_frame _ _ _ _ Hu) as (_ & -> & -> & _).
    eapply Forall_impl; [apply (resizeCanvas_cursors rnd w h t Hrnd)|].
    simpl. intros d Hd. lia. }
  induction 1 as [cw ch w h off s Hs|e s s' Hreach IH Hs].
  - by eapply Hresize.
  - pose proof (reachable_shaped rnd s Hreach) as (Hc & Hr & Hd & Hl & _).
    destruct e as [|off value|w h off value]; simpl in Hs.
    + destruct (draw_inv rnd s s' Hs)
        as (s1 & ops & _ & _ & _ & Hcols & Hrows & Hlen & _ & _ & Hall).
      apply Forall_lookup. intros c d' Hd'.
      destruct (Hall c) as (row & k & k' & Hrow & _ & Hnext).
      { apply lookup_lt_Some in Hd'. lia. }
      rewrite Hnext in Hd'. injection Hd' as <-. rewrite Hrows.
      apply nextCursor_cases; [exact Hl|exact Hr|].
      exact (proj1 (Forall_lookup _ _) IH c row Hrow).
    + destruct (drawTargetToMap_frame _ _ _ _ Hs) as (_ & -> & -> & _).
      exact IH.
    + by eapply Hresize.
Qed.

Lemma advance_rows (rnd : nat -> Q) (row : Z) (s : State) :
  rows (snd (advance rnd row s)) = rows s.
Proof.
  rewrite advance_spec. by destruct (rows s <? row).
Qed.

Lemma advance_quiet (rnd : nat -> Q) (row : Z) (s : State) :
  (rnd (seed s) <= 975 # 1000)%Q ->
  fst (advance rnd row s) = if rows s <? row then 0 else row + 1.
Proof.
  intros Hq. rewrite advance_spec. unfold spec_advance.
  destruct (rows s <? row); [reflexivity|].
  simpl. by rewrite (proj2 (Qltb_ge _ _) Hq).
Qed.

Lemma advances_climb (rnd : nat -> Q) :
  (forall k, (rnd k <= 975 # 1000)%Q) ->
  forall (n : nat) (start : Z) (s : State),
    start + Z.of_nat n <= rows s + 1 ->
    fst (advances rnd n start s) = start + Z.of_nat n
    /\ rows (snd (advances rnd n start s)) = rows s.
Proof.
  intros Hq. induction n as [|n IH]; intros start s Hb.
  - simpl. split; [lia|reflexivity].
  - cbn [advances].
    pose proof (advance_quiet rnd start s (Hq _)) as Hf.
    pose proof (advance_rows rnd start s) as Hr.
    destruct (advance rnd start s) as [next s1]. simpl in Hf, Hr.
    rewrite (proj2 (Z.ltb_ge _ _)) in Hf by lia. subst next.
    destruct (IH (start + 1) s1) as [H1 H2]; [lia|].
    rewrite H1, H2. split; [lia|exact Hr].
Qed.

Lemma advances_last (rnd : nat -> Q) (n : nat) (row : Z) (s : State) :
  advances rnd (S n) row s
  = advance rnd (fst (advances rnd n row s)) (snd (advances rnd n row s)).
Proof.
  revert row s. induction n as [|n IH]; intros row s.
  - simpl. by destruct (advance rnd row s).
  - change (advances rnd (S (S n)) row s)
      with (let '(next, s') := advance rnd row s in advances rnd (S n) next s').
    cbn [advances]. destruct (advance rnd row s) as [next s1]. apply IH.
Qed.

(** ** The claims *)

(** C1, as the code has it.  In every frame [draw] paints the fade overlay
    and then, for every column, one glyph at the cell under the column's
    cursor, in the locked colour when that cell is in state 2 and in the
    rain colour otherwise; the cursor of a column whose cell is not locked
    then moves by the cursor rule, and the cursor of a column whose cell is
    locked stays where it is. *)
Theorem draw_paints_every_column (rnd : nat -> Q) (s : State) :
  shaped s ->
  exists s' ops,
    draw rnd s = Some s'
    /\ painted s'
       = painted s
         ++ FillRect "rgba(0, 10, 4, 0.18)" 0 0 (canvasWidth s) (canvasHeight s)
         :: ops
    /\ length ops = Z.to_nat (columns s)
    /\ forall c, (c < Z.to_nat (columns s))%nat ->
         exists row k k',
           drops s !! c = Some row
           /\ ops !! c
              = Some (FillText
                        (if cellState (freezeMap s) row c =? 2
                         then "#e8ffec"%string else "#63f28c"%string)
                        (pickGlyph (rnd k)) (Z.of_nat c * 14) (row * 14))
           /\ drops s' !! c
              = Some (if cellState (freezeMap s) row c =? 2 then row
                      else if (rows s <? row) || Qltb (975 # 1000) (rnd k')
                           then 0 else row + 1).
Proof.
  intros Hs. destruct (draw_total rnd s Hs) as (s' & Hdraw & _).
  destruct (draw_inv rnd s s' Hdraw)
    as (s1 & ops & _ & _ & _ & _ & _ & _ & Hp & Hn & Hall).
  exists s', ops. split; [exact Hdraw|]. split; [exact Hp|].
  split; [exact Hn|exact Hall].
Qed.

Lemma example_small_shaped : shaped example_small.
Proof.
  unfold shaped, example_small. simpl.
  repeat split; try lia. repeat constructor.
Qed.

Lemma draw_paints_every_column_witness :
  shaped example_small
  /\ exists s' ops,
       draw example_rnd example_small = Some s'
       /\ painted s'
          = painted example_small
            ++ FillRect "rgba(0, 10, 4, 0.18)" 0 0 28 14 :: ops
       /\ length ops = 2%nat.
Proof.
  split; [exact example_small_shaped|].
  destruct (draw_paints_every_column example_rnd example_small
              example_small_shaped) as (s' & ops & H1 & H2 & H3 & _).
  exists s', ops. split; [exact H1|]. split; [exact H2|exact H3].
Defined.

Lemma example_locked_reachable : reachable example_rnd example_locked.
Proof.
  apply (reach_step example_rnd Frame example_start).
  - apply (reach_start example_rnd 300 150 240 280 (Some example_ctx)).
    vm_compute. reflexivity.
  - vm_compute. reflexivity.
Qed.

(** C1, as stated, fails: in the reachable state [example_locked] the cell
    under the cursor of column 0 is locked, and the frame leaves the cursor
    on row 1 instead of resetting it to 0 or moving it to row 2. *)
Lemma locked_cursor_is_not_advanced :
  ~ (forall (rnd : nat -> Q) (s s' : State) (c : nat) (row : Z),
       unitDraws rnd -> reachable rnd s -> draw rnd s = Some s' ->
       drops s !! c = Some row ->
       drops s' !! c = Some 0 \/ drops s' !! c = Some (row + 1)).
Proof.
  intros H.
  assert (Hunit : unitDraws example_rnd).
  { intros k. unfold example_rnd. split; [unfold Qle|unfold Qlt]; simpl; lia. }
  destruct (H example_rnd example_locked example_after 0%nat 1 Hunit
              example_locked_reachable) as [E|E];
    try (vm_compute; reflexivity); vm_compute in E; discriminate.
Qed.

(** C2, as the code has it.  After any resize the drop cursor bank has one
    entry per column, and the grid has as many columns (rows) as cells of 14
    pixels are needed to cover the canvas width (height): the quotient
    rounded up, not down.  For a surface at or above 240 by 280 the canvas
    has the floor of the surface dimensions. *)
Theorem resizeCanvas_grid (rnd : nat -> Q) (w h : Q) (s : State) :
  (240 <= w)%Q -> (280 <= h)%Q ->
  let s' := resizeCanvas rnd w h s in
  canvasWidth s' = Qfloor w /\ canvasHeight s' = Qfloor h
  /\ 14 * (columns s' - 1) < Qfloor w <= 14 * columns s'
  /\ 14 * (rows s' - 1) < Qfloor h <= 14 * rows s'
  /\ columns s' = (Qfloor w + 13) / 14 /\ rows s' = (Qfloor h + 13) / 14
  /\ Z.of_nat (length (drops s')) = columns s'.
Proof.
  intros Hw Hh. cbv zeta.
  pose proof (resizeCanvas_shaped rnd w h s) as (Hc & _ & Hd & _).
  apply Qfloor_resp_le in Hw, Hh. change (Qfloor 240) with 240 in Hw.
  change (Qfloor 280) with 280 in Hh.
  split; [simpl; lia|]. split; [simpl; lia|].
  rewrite Hd. simpl in *.
  rewrite (Z.max_l (Qfloor w) 240), (Z.max_l (Qfloor h) 280) in * by lia.
  pose proof (ceil_div_spec (Qfloor w)) as [Hcw Hcw'].
  pose proof (ceil_div_spec (Qfloor h)) as [Hch Hch'].
  unfold fontSize in *. repeat split; try lia.
Qed.

Lemma resizeCanvas_grid_witness :
  (240 <= 250)%Q /\ (280 <= 280)%Q
  /\ columns (resizeCanvas example_rnd 250 280 (initialState 300 150)) = 18
  /\ rows (resizeCanvas example_rnd 250 280 (initialState 300 150)) = 20
  /\ length (drops (resizeCanvas example_rnd 250 280 (initialState 300 150)))
     = 18%nat.
Proof.
  assert (Hw : (240 <= 250)%Q) by (unfold Qle; simpl; lia).
  assert (Hh : (280 <= 280)%Q) by (unfold Qle; simpl; lia).
  split; [exact Hw|]. split; [exact Hh|].
  destruct (resizeCanvas_grid example_rnd 250 280 (initialState 300 150) Hw Hh)
    as (_ & _ & _ & _ & Hc & Hr & Hd).
  split; [exact Hc|]. split; [exact Hr|].
  apply Nat2Z.inj. rewrite Hd. exact Hc.
Defined.

(** C2, as stated, fails: a 240 pixel wide surface gets 18 columns, one more
    than the floor of 240 / 14. *)
Lemma resize_columns_not_floor :
  columns (resizeCanvas example_rnd 240 280 (initialState 300 150)) = 18
  /\ Qfloor (240 / 14) = 17
  /\ columns (resizeCanvas example_rnd 240 280 (initialState 300 150))
     <> Qfloor (240 / 14).
Proof.
  split; [reflexivity|]. split; [reflexivity|]. vm_compute. discriminate.
Qed.

(** ** The draw of each cell *)

Lemma getCell_in_grid (s : State) (y x : nat) (v : Z) :
  shaped s -> getCell (freezeMap s) y x = Some v ->
  (y < Z.to_nat (rows s))%nat /\ (x < Z.to_nat (columns s))%nat.
Proof.
  intros (_ & _ & _ & Hl & Hf) Hv. unfold getCell in Hv.
  destruct (freezeMap s !! y) as [line|] eqn:E; [|discriminate].
  split.
  - apply lookup_lt_Some in E. lia.
  - apply lookup_lt_Some in Hv.
    by rewrite (proj1 (Forall_lookup _ _) Hf y line E) in Hv.
Qed.

Lemma forEach_app {A S : Type} (body : A -> S -> option S) (l1 l2 : list A)
    (s : S) :
  forEach body (l1 ++ l2) s
  = match forEach body l1 s with
    | Some t => forEach body l2 t
    | None => None
    end.
Proof.
  revert s. induction l1 as [|a l1 IH]; intros s; [reflexivity|].
  simpl. destruct (body a s); [apply IH|reflexivity].
Qed.

Lemma countActive_app (l1 l2 : list Z) :
  countActive (l1 ++ l2) = (countActive l1 + countActive l2)%nat.
Proof. unfold countActive. by rewrite List.filter_app, length_app. Qed.

Lemma countActive_one (v : Z) :
  countActive [v] = if active v then 1%nat else 0%nat.
Proof. unfold countActive. simpl. by destruct (active v). Qed.

Lemma automaton_same (v : Z) (r : Q) :
  (if v =? 1 then false else negb (v =? 2)) = true -> automaton v r = v.
Proof.
  unfold automaton. destruct (v =? 1); [discriminate|].
  by destruct (v =? 2).
Qed.

Lemma diffuseCell_exact (rnd : nat -> Q) (y x : nat) (t t' : State)
    (line : list Z) :
  freezeMap t !! y = Some line -> diffuseCell rnd y x t = Some t' ->
  match line !! x with
  | Some v =>
      seed t' = (seed t + (if active v then 1 else 0))%nat
      /\ freezeMap t'
         = <[y := <[x := automaton v (rnd (seed t))]> line]> (freezeMap t)
  | None => t' = t
  end.
Proof.
  intros Hline. unfold diffuseCell. rewrite Hline.
  destruct (line !! x) as [v|] eqn:Ex; [|by intros [= <-]].
  assert (Hid : forall w, w = v -> freezeMap t = <[y := <[x := w]> line]> (freezeMap t)).
  { intros w ->. by rewrite (list_insert_id line x v Ex), (list_insert_id _ y line Hline). }
  unfold automaton, active, freezeSpeed, writeCell.
  cbn [Math_random freezeMap seed]. rewrite Hline.
  destruct (v =? 1) eqn:E1.
  - apply Z.eqb_eq in E1. subst v. simpl.
    destruct (Qltb _ _); intros [= <-]; simpl; (split; [lia|]);
      [reflexivity|by apply Hid].
  - destruct (v =? 2) eqn:E2.
    + apply Z.eqb_eq in E2. subst v. simpl.
      destruct (Qltb _ _); intros [= <-]; simpl; (split; [lia|]);
        [reflexivity|by apply Hid].
    + intros [= <-]. simpl. split; [lia|by apply Hid].
Qed.

Lemma diffuseRow_exact (rnd : nat -> Q) (y : nat) :
  forall (j : nat) (t t' : State) (line : list Z),
    freezeMap t !! y = Some line -> (j <= length line)%nat ->
    forEach (fun x => diffuseCell rnd y x) (seq 0 j) t = Some t' ->
    seed t' = (seed t + countActive (take j line))%nat
    /\ exists line',
         freezeMap t' = <[y := line']> (freezeMap t)
         /\ length line' = length line
         /\ (forall x, (j <= x)%nat -> line' !! x = line !! x)
         /\ (forall x v, (x < j)%nat -> line !! x = Some v ->
               line' !! x
               = Some (automaton v (rnd (seed t + countActive (take x line))%nat))).
Proof.
  induction j as [|j IH]; intros t t' line Hline Hj Hrun.
  - injection Hrun as <-. split; [simpl; unfold countActive; simpl; lia|].
    exists line. split; [symmetry; by apply list_insert_id|].
    split; [reflexivity|]. split; [done|]. intros x v Hx. lia.
  - rewrite seq_S, forEach_app in Hrun. cbn [Nat.add] in Hrun.
    destruct (forEach (fun x => diffuseCell rnd y x) (seq 0 j) t) as [u|] eqn:Eu;
      [|discriminate].
    cbn [forEach] in Hrun.
    destruct (diffuseCell rnd y j u) as [w|] eqn:Ew; [|discriminate].
    injection Hrun as ->.
    destruct (IH t u line Hline ltac:(lia) Eu)
      as (Hseed & line_u & Hfm & Hlen & Hge & Hlt).
    assert (Hy : (y < length (freezeMap t))%nat) by (by eapply lookup_lt_Some).
    assert (Hlu : freezeMap u !! y = Some line_u)
      by (rewrite Hfm; by apply list_lookup_insert_eq).
    destruct (lookup_lt_is_Some_2 line j ltac:(lia)) as [v Hv].
    assert (Hvu : line_u !! j = Some v) by (rewrite Hge; [exact Hv|lia]).
    pose proof (diffuseCell_exact rnd y j u t' line_u Hlu Ew) as Hcell.
    rewrite Hvu in Hcell. destruct Hcell as [Hseed' Hfm'].
    split.
    { rewrite (take_S_r line j v Hv), countActive_app, countActive_one. lia. }
    exists (<[j := automaton v (rnd (seed u))]> line_u).
    split; [rewrite Hfm', Hfm; apply list_insert_insert_eq|].
    split; [by rewrite length_insert|].
    split.
    { intros x Hx. rewrite list_lookup_insert_ne by lia. apply Hge. lia. }
    intros x w Hx Hw. destruct (decide (x = j)) as [->|Hne].
    + rewrite list_lookup_insert_eq by lia.
      assert (w = v) as -> by congruence. by rewrite Hseed.
    + rewrite list_lookup_insert_ne by lia. apply Hlt; [lia|exact Hw].
Qed.

Lemma diffuseRows_exact (rnd : nat -> Q) (ncols : nat) (s : State) :
  Forall (fun line => length line = ncols) (freezeMap s) ->
  forall (i : nat) (t : State),
    (i <= length (freezeMap s))%nat ->
    forEach (fun y => forEach (fun x => diffuseCell rnd y x) (seq 0 ncols))
            (seq 0 i) s = Some t ->
    seed t = (seed s + countActive (concat (take i (freezeMap s))))%nat
    /\ length (freezeMap t) = length (freezeMap s)
    /\ (forall y, (i <= y)%nat -> freezeMap t !! y = freezeMap s !! y)
    /\ (forall y x v, (y < i)%nat ->
          getCell (freezeMap s) y x = Some v ->
          getCell (freezeMap t) y x
          = Some (automaton v (rnd (seed s + drawsBefore (freezeMap s) y x)%nat))).
Proof.
  intros Hshape. induction i as [|i IH]; intros t Hi Hrun.
  - injection Hrun as <-. split; [simpl; unfold countActive; simpl; lia|].
    split; [reflexivity|]. split; [done|]. intros y x v Hy. lia.
  - rewrite seq_S, forEach_app in Hrun. cbn [Nat.add] in Hrun.
    destruct (forEach _ (seq 0 i) s) as [u|] eqn:Eu; [|discriminate].
    cbn [forEach] in Hrun.
    destruct (forEach (fun x => diffuseCell rnd i x) (seq 0 ncols) u)
      as [w|] eqn:Ew; [|discriminate].
    injection Hrun as ->.
    destruct (IH u ltac:(lia) eq_refl) as (Hseed & Hlen & Hge & Hlt).
    destruct (lookup_lt_is_Some_2 (freezeMap s) i ltac:(lia)) as [line Hline].
    assert (Hncols : length line = ncols)
      by exact (proj1 (Forall_lookup _ _) Hshape i line Hline).
    assert (Hlu : freezeMap u !! i = Some line) by (rewrite Hge; [exact Hline|lia]).
    destruct (diffuseRow_exact rnd i ncols u t line Hlu ltac:(lia) Ew)
      as (Hseed' & line' & Hfm & Hlen' & _ & Hcells).
    split.
    { rewrite (take_S_r _ i line Hline), concat_app, countActive_app.
      simpl. rewrite app_nil_r.
      rewrite (take_ge line ncols) in Hseed' by lia. lia. }
    split; [by rewrite Hfm, length_insert|].
    split.
    { intros y Hy. rewrite Hfm, list_lookup_insert_ne by lia. apply Hge. lia. }
    intros y x v Hy Hv. destruct (decide (y = i)) as [->|Hne].
    + unfold getCell in *. rewrite Hline in Hv.
      rewrite Hfm, list_lookup_insert_eq by lia.
      rewrite (Hcells x v); [|apply lookup_lt_Some in Hv; lia|exact Hv].
      unfold drawsBefore. rewrite Hline, Hseed. simpl.
      by rewrite Nat.add_assoc.
    + unfold getCell. rewrite Hfm, list_lookup_insert_ne by lia.
      apply Hlt; [lia|exact Hv].
Qed.

Lemma countActive_take_le (l : list Z) (i j : nat) :
  (i <= j)%nat -> (countActive (take i l) <= countActive (take j l))%nat.
Proof.
  intros Hij. replace j with (i + (j - i))%nat by lia.
  rewrite <- take_take_drop, countActive_app. lia.
Qed.

Lemma countActive_concat_take_le (fm : list (list Z)) (i j : nat) :
  (i <= j)%nat ->
  (countActive (concat (take i fm)) <= countActive (concat (take j fm)))%nat.
Proof.
  intros Hij. replace j with (i + (j - i))%nat by lia.
  rewrite <- take_take_drop, concat_app, countActive_app. lia.
Qed.

Lemma countActive_take_S (l : list Z) (x : nat) (v : Z) :
  l !! x = Some v -> active v = true ->
  countActive (take (S x) l) = S (countActive (take x l)).
Proof.
  intros Hv Ha. rewrite (take_S_r l x v Hv), countActive_app, countActive_one, Ha.
  lia.
Qed.

(** In row-major order the draw of a cell in state 1 or 2 comes before the
    draws of all later cells. *)
Lemma drawsBefore_later (fm : list (list Z)) (y x y' x' : nat) (v : Z) :
  getCell fm y x = Some v -> active v = true ->
  (y < y' \/ (y = y' /\ x < x'))%nat ->
  (drawsBefore fm y x < drawsBefore fm y' x')%nat.
Proof.
  unfold getCell, drawsBefore. intros Hv Ha Hord.
  destruct (fm !! y) as [line|] eqn:Ey; [|discriminate]. simpl.
  pose proof (countActive_take_S line x v Hv Ha) as Hs.
  destruct Hord as [Hlt|[<- Hlt]].
  - pose proof (countActive_concat_take_le fm (S y) y' ltac:(lia)) as Hrows.
    rewrite (take_S_r fm y line Ey), concat_app, countActive_app in Hrows.
    simpl in Hrows. rewrite app_nil_r in Hrows.
    pose proof (countActive_take_le line (S x) (length line)
                  ltac:(apply lookup_lt_Some in Hv; lia)) as Hline.
    rewrite (take_ge line (length line)) in Hline by lia. lia.
  - rewrite Ey. simpl.
    pose proof (countActive_take_le line (S x) x' ltac:(lia)). lia.
Qed.

Lemma drawsBefore_total (fm : list (list Z)) (y x : nat) (v : Z) :
  getCell fm y x = Some v -> active v = true ->
  (drawsBefore fm y x < countActive (concat fm))%nat.
Proof.
  intros Hv Ha. pose proof Hv as Hv'. unfold getCell in Hv'.
  destruct (fm !! y) as [line|] eqn:Ey; [|discriminate].
  pose proof (drawsBefore_later fm y x (length fm) 0 v Hv Ha) as H.
  unfold drawsBefore in H at 2.
  rewrite (take_ge fm (length fm)), (lookup_ge_None_2 fm (length fm)) in H by lia.
  replace (countActive (take 0 (default [] None))) with 0%nat in H
    by reflexivity.
  apply lookup_lt_Some in Ey. lia.
Qed.

Lemma active_spec (v : Z) : active v = true <-> v = 1 \/ v = 2.
Proof. unfold active. lia. Qed.

(** C3.  One run of [diffuseFreeze] on a well-shaped state returns, and
    moves every cell of the grid by one step of the three-state automaton on
    the cell's own draw: the run calls [Math.random()] once for each cell it
    finds in state 1 or 2, in row-major order, so the draw of a cell is the
    one whose index is the seed plus the number of such cells before it;
    these draws are made during the run and no two cells share one.  State 0
    stays 0 and costs no draw; state 1 becomes 2 exactly when its draw is
    below [freezeSpeed] = 0.006 and stays 1 otherwise; state 2 becomes 1
    exactly when its draw is below 0.001 and stays 2 otherwise; nothing else
    changes. *)
Theorem diffuseFreeze_automaton (rnd : nat -> Q) (s : State) :
  shaped s ->
  (exists s',
     diffuseFreeze rnd s = Some s'
     /\ seed s' = (seed s + countActive (concat (freezeMap s)))%nat
     /\ (forall y x v,
          getCell (freezeMap s) y x = Some v ->
          getCell (freezeMap s') y x
          = Some (automaton v (rnd (seed s + drawsBefore (freezeMap s) y x)%nat))
          /\ (v = 1 \/ v = 2 ->
              (seed s <= seed s + drawsBefore (freezeMap s) y x < seed s')%nat))
     /\ (forall y x v y' x' v',
          getCell (freezeMap s) y x = Some v ->
          getCell (freezeMap s) y' x' = Some v' ->
          v = 1 \/ v = 2 -> v' = 1 \/ v' = 2 -> (y, x) <> (y', x') ->
          drawsBefore (freezeMap s) y x <> drawsBefore (freezeMap s) y' x'))
  /\ (freezeSpeed == 6 # 1000)%Q
  /\ (forall r, automaton 0 r = 0)
  /\ (forall r, (automaton 1 r = 2 <-> (r < freezeSpeed)%Q)
                /\ (automaton 1 r = 1 <-> (freezeSpeed <= r)%Q))
  /\ (forall r, (automaton 2 r = 1 <-> (r < 1 # 1000)%Q)
                /\ (automaton 2 r = 2 <-> (1 # 1000 <= r)%Q))
  /\ (forall v r, automaton v r <> v ->
                  (v = 1 /\ automaton v r = 2) \/ (v = 2 /\ automaton v r = 1)).
Proof.
  intros Hs. pose proof Hs as (Hc & Hr & Hd & Hl & Hf). split.
  - destruct (diffuseFreeze_total rnd s Hl) as (s' & Hs' & _).
    pose proof Hs' as Hrun. unfold diffuseFreeze, upto in Hrun.
    destruct (diffuseRows_exact rnd (Z.to_nat (columns s)) s Hf
                (Z.to_nat (rows s)) s' ltac:(lia) Hrun)
      as (Hseed & _ & _ & Hcells).
    rewrite (take_ge (freezeMap s)) in Hseed by lia.
    exists s'. split; [exact Hs'|]. split; [exact Hseed|]. split.
    + intros y x v Hv. destruct (getCell_in_grid s y x v Hs Hv) as [Hy Hx].
      split; [by apply Hcells|].
      intros Ha. apply active_spec in Ha.
      pose proof (drawsBefore_total (freezeMap s) y x v Hv Ha). lia.
    + intros y x v y' x' v' Hv Hv' Ha Ha' Hne.
      apply active_spec in Ha, Ha'.
      destruct (lt_eq_lt_dec y y') as [[Hlt|Heq]|Hgt].
      * pose proof (drawsBefore_later _ y x y' x' v Hv Ha ltac:(lia)). lia.
      * subst y'. destruct (lt_eq_lt_dec x x') as [[Hlt|Heq]|Hgt].
        -- pose proof (drawsBefore_later _ y x y x' v Hv Ha ltac:(lia)). lia.
        -- congruence.
        -- pose proof (drawsBefore_later _ y x' y x v' Hv' Ha' ltac:(lia)). lia.
      * pose proof (drawsBefore_later _ y' x' y x v' Hv' Ha' ltac:(lia)). lia.
  - split; [reflexivity|]. split; [reflexivity|].
    unfold automaton, freezeSpeed. split; [|split].
    + intros r. simpl. destruct (Qltb r (6 # 1000)) eqn:E.
      * apply Qltb_lt in E. split; split; try done.
        intros H. exfalso. exact (Qlt_not_le _ _ E H).
      * apply Qltb_ge in E. split; split; try done.
        intros H. exfalso. exact (Qlt_not_le _ _ H E).
    + intros r. simpl. destruct (Qltb r (1 # 1000)) eqn:E.
      * apply Qltb_lt in E. split; split; try done.
        intros H. exfalso. exact (Qlt_not_le _ _ E H).
      * apply Qltb_ge in E. split; split; try done.
        intros H. exfalso. exact (Qlt_not_le _ _ H E).
    + intros v r. destruct (Z.eqb_spec v 1) as [->|H1].
      * destruct (Qltb r (6 # 1000)); [by left|congruence].
      * destruct (Z.eqb_spec v 2) as [->|H2]; [|congruence].
        destruct (Qltb r (1 # 1000)); [by right|congruence].
Qed.

Lemma diffuseFreeze_automaton_witness :
  shaped example_small
  /\ exists s',
       diffuseFreeze example_rnd example_small = Some s'
       /\ freezeMap s' = [[2; 1]].
Proof.
  split; [exact example_small_shaped|].
  destruct (diffuseFreeze_automaton example_rnd example_small
              example_small_shaped) as ((s' & Hs' & _) & _).
  exists s'. split; [exact Hs'|].
  vm_compute in Hs'. injection Hs' as <-. reflexivity.
Defined.

(** C4.  On a grid with at least one column and one row, a re-target whose
    off-screen context was obtained returns; the target grid it rasterizes
    has [rows] lines of [columns] cells, each 0 or 1; the live grid
    afterwards is that target grid, and no cell of it is in state 2,
    whatever was locked before. *)
Theorem drawTargetToMap_resets (localCtx : Offscreen) (text : jsstring)
    (s : State) :
  0 < columns s -> 0 < rows s ->
  exists target,
    fillTarget (columns s) (rows s)
      (localCtx (columns s) (rows s)
         (textSize (columns s) (rows s) (lines text))
         (textCalls (columns s) (rows s)
            (textSize (columns s) (rows s) (lines text)) (lines text)))
    = Some target
    /\ drawTargetToMap (Some localCtx) text s = Some (setFreezeMap target s)
    /\ freezeMap (setFreezeMap target s) = target
    /\ length target = Z.to_nat (rows s)
    /\ Forall (fun line => length line = Z.to_nat (columns s)) target
    /\ Forall (Forall (fun v => v = 0 \/ v = 1)) target
    /\ (forall y x,
          (y < Z.to_nat (rows s))%nat -> (x < Z.to_nat (columns s))%nat ->
          getCell target y x = Some 0 \/ getCell target y x = Some 1)
    /\ forall y x, getCell (freezeMap (setFreezeMap target s)) y x <> Some 2.
Proof.
  intros Hc Hr.
  destruct (drawTargetToMap_retarget localCtx text s Hc Hr)
    as (target & Hd & Hf & Hl & Hs & Hb).
  exists target. split; [exact Hf|]. split; [exact Hd|].
  split; [reflexivity|]. split; [exact Hl|]. split; [exact Hs|].
  split; [exact Hb|]. split.
  { intros y x Hy Hx. rewrite (fillTarget_cell _ _ _ _ y x Hf Hy Hx).
    destruct (opaque _ _); [by right|by left]. }
  intros y x. simpl. unfold getCell.
  destruct (target !! y) as [line|] eqn:Ey; [|discriminate].
  intros Hx.
  pose proof (proj1 (Forall_lookup _ _) Hb y line Ey) as Hline.
  destruct (proj1 (Forall_lookup _ _) Hline x 2 Hx); discriminate.
Qed.

Lemma drawTargetToMap_resets_witness :
  0 < columns example_small /\ 0 < rows example_small
  /\ exists target,
       drawTargetToMap (Some example_ctx) (lit "HI") example_small
       = Some (setFreezeMap target example_small)
       /\ target = [[1; 1]].
Proof.
  assert (Hc : 0 < columns example_small) by (simpl; lia).
  assert (Hr : 0 < rows example_small) by (simpl; lia).
  split; [exact Hc|]. split; [exact Hr|].
  destruct (drawTargetToMap_resets example_ctx (lit "HI") example_small Hc Hr)
    as (target & Hf & Hd & _).
  exists target. split; [exact Hd|].
  vm_compute in Hf. by injection Hf as <-.
Defined.

(** C5, as the code has it.  The rasterizer first strips the whitespace at
    the start of the whole text, and then normalizes as described: split on
    line feeds, trim trailing whitespace from each line, discard empty
    lines, keep at most the first six.  When no line is left (the empty
    string included) the lines are the default phrase alone; so there are
    always between one and six lines, none empty, none ending in
    whitespace. *)
Theorem lines_normalized (text : jsstring) :
  lineList text = spec_normalize (trimStart text)
  /\ lines text = match spec_normalize (trimStart text) with
                  | [] => [defaultPhrase]
                  | ls => ls
                  end
  /\ lines [] = [defaultPhrase]
  /\ (1 <= length (lines text) <= 6)%nat
  /\ Forall (fun line => line <> [] /\ trimEnd line = line) (lines text).
Proof.
  split; [apply lineList_trimStart|].
  split; [rewrite lines_cases, lineList_trimStart;
          by destruct (spec_normalize (trimStart text))|].
  split; [reflexivity|].
  split; [apply lines_length|apply lines_nonblank].
Qed.

(** C5, as stated, fails: the text " HI" is normalized to the line "HI",
    not to the line " HI" that splitting and trimming line ends gives. *)
Lemma leading_space_is_stripped :
  lines (lit " HI") = [lit "HI"]
  /\ spec_normalize (lit " HI") = [lit " HI"]
  /\ lines (lit " HI") <> spec_normalize (lit " HI").
Proof.
  split; [reflexivity|]. split; [reflexivity|]. vm_compute. discriminate.
Qed.

(** The cursor rule on its own.  While no early reset fires, each
    application of the rule
    moves the cursor down by exactly one row until it stands at [rows + 1],
    and the next application resets it to row 0.  A cursor below the last
    row is reset whatever the draw.  A cursor on the grid is reset exactly
    when its draw exceeds 0.975, an interval of length 0.025 of the unit
    interval, and moves down by one row otherwise. *)
Theorem cursor_rule (rnd : nat -> Q) (s : State) :
  ((forall k, (rnd k <= 975 # 1000)%Q) ->
   forall (start : Z) (n : nat),
     start + Z.of_nat n <= rows s + 1 ->
     fst (advances rnd n start s) = start + Z.of_nat n
     /\ (start + Z.of_nat n = rows s + 1 ->
         fst (advances rnd (S n) start s) = 0))
  /\ (forall row, rows s < row -> fst (advance rnd row s) = 0)
  /\ (forall row, 0 <= row <= rows s ->
        (fst (advance rnd row s) = 0 <-> (975 # 1000 < rnd (seed s))%Q)
        /\ (fst (advance rnd row s) = row + 1
            <-> (rnd (seed s) <= 975 # 1000)%Q))
  /\ (1 - (975 # 1000) == 25 # 1000)%Q.
Proof.
  split; [|split; [|split; [|reflexivity]]].
  - intros Hq start n Hb.
    destruct (advances_climb rnd Hq n start s Hb) as [Hf Hr].
    split; [exact Hf|]. intros Hlast.
    rewrite advances_last, advance_spec, Hr, Hf.
    by rewrite (proj2 (Z.ltb_lt _ _)) by lia.
  - intros row Hrow. rewrite advance_spec.
    by rewrite (proj2 (Z.ltb_lt _ _)) by lia.
  - intros row Hrow. rewrite advance_spec, (proj2 (Z.ltb_ge _ _)) by lia.
    unfold spec_advance. rewrite (proj2 (Z.ltb_ge _ _)) by lia. simpl.
    destruct (Qltb (975 # 1000) (rnd (seed s))) eqn:E.
    + apply Qltb_lt in E. split; split; try done; try lia.
      intros H. exfalso. exact (Qlt_not_le _ _ E H).
    + apply Qltb_ge in E. split; split; try done; try lia.
      intros H. exfalso. exact (Qlt_not_le _ _ H E).
Qed.

Lemma cursor_rule_witness :
  (forall k, (example_rnd k <= 975 # 1000)%Q)
  /\ 0 + Z.of_nat 2 <= rows example_small + 1
  /\ fst (advances example_rnd 2 0 example_small) = 2
  /\ fst (advances example_rnd 3 0 example_small) = 0.
Proof.
  assert (Hq : forall k, (example_rnd k <= 975 # 1000)%Q)
    by (intros k; unfold example_rnd, Qle; simpl; lia).
  assert (Hb : 0 + Z.of_nat 2 <= rows example_small + 1) by (simpl; lia).
  split; [exact Hq|]. split; [exact Hb|].
  destruct (cursor_rule example_rnd example_small) as (Hquiet & _).
  destruct (Hquiet Hq 0 2%nat Hb) as [H2 H3].
  split; [exact H2|]. apply H3. reflexivity.
Defined.

(** ** The cursor of a column, frame by frame *)

Lemma draw_frame (rnd : nat -> Q) (s s' : State) :
  draw rnd s = Some s' ->
  columns s' = columns s /\ rows s' = rows s
  /\ canvasWidth s' = canvasWidth s /\ canvasHeight s' = canvasHeight s
  /\ exists s1, freezeMap s1 = freezeMap s /\ columns s1 = columns s
                /\ rows s1 = rows s /\ diffuseFreeze rnd s1 = Some s'.
Proof.
  intros Hdraw.
  destruct (draw_inv rnd s s' Hdraw)
    as (s1 & ops & _ & Hdiff & (G1 & G2 & G3 & G4 & G5) & Hc & Hr & _).
  destruct (diffuseRows_inv rnd _ _ _ _ Hdiff)
    as ((D1 & D2 & D3 & D4 & D5 & D6) & _ & _).
  split; [exact Hc|]. split; [exact Hr|].
  split; [congruence|]. split; [congruence|].
  exists s1. by repeat split.
Qed.











Lemma Math_max_six (x : double) :
  (SFcompare (ofZ 6) x = Some Lt /\ Math_max (ofZ 6) x = x)
  \/ ((SFcompare (ofZ 6) x = Some Gt \/ SFcompare (ofZ 6) x = Some Eq)
      /\ Math_max (ofZ 6) x = ofZ 6)
  \/ (x = S754_nan /\ Math_max (ofZ 6) x = S754_nan).
Proof.
  change (ofZ 6) with (S754_finite false 6755399441055744 (-50)).
  unfold Math_max.
  destruct (SFcompare (S754_finite false 6755399441055744 (-50)) x)
    as [[| |]|] eqn:E.
  - right. left. split; [by right|reflexivity].
  - left. by split.
  - right. left. split; [by left|reflexivity].
  - right. right. destruct x; try discriminate E. by split.
Qed.

(** C7, as the code has it.  On the lines of any text, the font size of the
    rasterizer is the formula of the specification evaluated in double
    arithmetic: the products longest line * 0.62 and line count * 1.2 and
    the two quotients are each rounded to the nearest double, the smaller
    quotient is rounded down to an integer, and the result is that integer
    when it exceeds 6 and 6 otherwise (NaN when the quotients are NaN). *)
Theorem textSize_in_doubles (text : jsstring) (columns rows : Z) :
  let fitted :=
    Math_floor
      (Math_min
         (div (ofZ columns) (mul (ofZ (longestLine (lines text))) lit_0_62))
         (div (ofZ rows)
              (mul (ofZ (Z.of_nat (length (lines text)))) lit_1_2))) in
  textSize columns rows (lines text) = spec_fontSize columns rows (lines text)
  /\ ((SFcompare (ofZ 6) fitted = Some Lt
       /\ textSize columns rows (lines text) = fitted)
      \/ ((SFcompare (ofZ 6) fitted = Some Gt
           \/ SFcompare (ofZ 6) fitted = Some Eq)
          /\ textSize columns rows (lines text) = ofZ 6)
      \/ (fitted = S754_nan
          /\ textSize columns rows (lines text) = S754_nan)).
Proof.
  cbv zeta.
  assert (Hne : lines text <> []).
  { pose proof (lines_length text) as H. intros E. rewrite E in H. simpl in H. lia. }
  assert (Hall : Forall (fun line => line <> []) (lines text)).
  { eapply Forall_impl; [apply lines_nonblank|]. by intros line [H _]. }
  assert (Hlen : maxLen (lines text) = longestLine (lines text)).
  { rewrite maxLen_longest. apply Z.max_r. by apply longestLine_pos. }
  unfold textSize, spec_fontSize. rewrite Hlen.
  split; [reflexivity|apply Math_max_six].
Qed.

(** C7, as stated, fails: on a surface 3900 pixels wide the grid has 279
    columns, and one line of thirty characters then gets the font size 14,
    because 279 / (30 * 0.62) is 14.999999999999998 in doubles; the formula
    in exact arithmetic gives 15. *)
Lemma font_size_is_rounded :
  columns (resizeCanvas example_rnd 3900 280 (initialState 300 150)) = 279
  /\ rows (resizeCanvas example_rnd 3900 280 (initialState 300 150)) = 20
  /\ lines example_wide = [example_wide]
  /\ textSize 279 20 (lines example_wide) = ofZ 14
  /\ exact_fontSize 279 20 (lines example_wide) = 15
  /\ textSize 279 20 (lines example_wide)
     <> ofZ (exact_fontSize 279 20 (lines example_wide)).
Proof.
  repeat split; try (vm_compute; reflexivity). vm_compute. discriminate.
Qed.

(** C8.  The cell-state lookup of the frame renderer is total, and a cursor
    above the first or at or below the last row reads the idle state 0:
    the column iteration then paints its glyph in the rain colour, and both
    the iteration and the whole frame return, whatever the cursors are. *)
Theorem lookup_outside_is_idle (rnd : nat -> Q) (s : State) (column : nat)
    (row : Z) :
  shaped s -> drops s !! column = Some row ->
  (row < 0 \/ rows s <= row -> cellState (freezeMap s) row column = 0)
  /\ (exists s',
        drawColumn rnd column s = Some s'
        /\ (row < 0 \/ rows s <= row ->
            painted s'
            = painted s
              ++ [FillText "#63f28c" (pickGlyph (rnd (seed s)))
                    (Z.of_nat column * 14) (row * 14)]))
  /\ exists s', draw rnd s = Some s'.
Proof.
  intros Hs Hrow. pose proof Hs as (Hc & Hr & Hd & Hl & Hf).
  assert (Hout : row < 0 \/ rows s <= row ->
                 cellState (freezeMap s) row column = 0).
  { intros H. apply cellState_outside. lia. }
  split; [exact Hout|]. split.
  - destruct (drawColumn_total rnd column s) as [s' Hs'];
      [by eapply lookup_lt_Some|].
    exists s'. split; [exact Hs'|]. intros H.
    unfold drawColumn in Hs'. rewrite Hrow, (Hout H) in Hs'.
    cbn [Z.eqb Math_random] in Hs'. rewrite advance_spec in Hs'.
    cbn [rows paint] in Hs'.
    destruct (rows s <? row); injection Hs' as <-; reflexivity.
  - destruct (draw_total rnd s Hs) as (s' & Hs' & _). eauto.
Qed.

Lemma lookup_outside_is_idle_witness :
  shaped example_small /\ drops example_small !! 1%nat = Some 7
  /\ cellState (freezeMap example_small) 7 1 = 0.
Proof.
  split; [exact example_small_shaped|]. split; [reflexivity|].
  destruct (lookup_outside_is_idle example_rnd example_small 1 7
              example_small_shaped eq_refl) as (H & _).
  apply H. right. simpl. lia.
Defined.

(** C9.  When the off-screen context cannot be obtained, [drawTargetToMap]
    returns with the whole state as it was: the live grid, the grid
    dimensions, the cursors, the canvas; so does a submit in that case. *)
Theorem drawTargetToMap_without_context (rnd : nat -> Q) (text value : jsstring)
    (s : State) :
  drawTargetToMap None text s = Some s
  /\ step rnd (Submit None value) s = Some s.
Proof.
  split; reflexivity.
Qed.

(** C10.  In every state reached from start-up by frames, submits and
    resizes, every cursor is between 0 and [rows + 1]; a resize initializes
    every cursor to a row of the grid; and a frame leaves each cursor
    unchanged, resets it to 0 or moves it down by one row, a cursor below
    the last row being reset to 0. *)
Theorem cursor_bank_bounded (rnd : nat -> Q) (s : State) :
  unitDraws rnd -> reachable rnd s ->
  Forall (fun d => 0 <= d <= rows s + 1) (drops s)
  /\ (forall w h,
        Forall (fun d => 0 <= d < rows (resizeCanvas rnd w h s))
               (drops (resizeCanvas rnd w h s)))
  /\ exists s',
       draw rnd s = Some s' /\ rows s' = rows s
       /\ length (drops s') = length (drops s)
       /\ forall c d,
            drops s !! c = Some d ->
            exists d',
              drops s' !! c = Some d'
              /\ (d' = d \/ d' = 0 \/ d' = d + 1)
              /\ (rows s < d -> d' = 0).
Proof.
  intros Hrnd Hreach.
  split; [exact (reachable_cursors rnd s Hrnd Hreach)|].
  split; [intros w h; by apply resizeCanvas_cursors|].
  pose proof (reachable_shaped rnd s Hreach) as Hs.
  destruct (draw_total rnd s Hs) as (s' & Hdraw & _).
  destruct Hs as (Hc & Hr & Hd & Hl & _).
  destruct (draw_inv rnd s s' Hdraw)
    as (s1 & ops & _ & _ & _ & _ & Hrows & Hlen & _ & _ & Hall).
  exists s'. split; [exact Hdraw|]. split; [exact Hrows|].
  split; [exact Hlen|].
  intros c d Hcd. destruct (Hall c) as (row & k & k' & Hrow & _ & Hnext).
  { apply lookup_lt_Some in Hcd. lia. }
  assert (row = d) as -> by congruence.
  exists (nextCursor s c d (rnd k')). split; [exact Hnext|].
  destruct (nextCursor_cases s c d (rnd k') Hl Hr) as (H1 & H2 & _).
  split; [exact H1|exact H2].
Qed.

Lemma example_half_unit : unitDraws example_half.
Proof.
  intros k. unfold example_half. split.
  - unfold Qle. simpl. lia.
  - unfold Qlt. simpl. lia.
Qed.

Lemma example_rain_reachable : reachable example_half example_rain.
Proof.
  apply (reach_start example_half 300 150 240 280 None). reflexivity.
Qed.

Lemma cursor_bank_bounded_witness :
  unitDraws example_half /\ reachable example_half example_rain
  /\ Forall (fun d => 0 <= d <= rows example_rain + 1) (drops example_rain).
Proof.
  split; [exact example_half_unit|]. split; [exact example_rain_reachable|].
  exact (proj1 (cursor_bank_bounded example_half example_rain
                  example_half_unit example_rain_reachable)).
Defined.

(** * Further properties of the animation *)

(** ** Frames and events on reachable states *)

Lemma step_reachable (rnd : nat -> Q) (s : State) (e : Event) :
  reachable rnd s -> exists s', step rnd e s = Some s' /\ reachable rnd s'.
Proof.
  intros Hreach. pose proof (reachable_shaped rnd s Hreach) as Hs.
  assert (exists s', step rnd e s = Some s') as [s' Hs'].
  { destruct e as [|off value|w h off value]; simpl.
    - destruct (draw_total rnd s Hs) as (s' & Hs' & _). eauto.
    - destruct (drawTargetToMap_shaped off (or_else value defaultPhrase) s Hs)
        as (s' & Hs' & _). eauto.
    - destruct (drawTargetToMap_shaped off (or_else value defaultPhrase)
                  (resizeCanvas rnd w h s) (resizeCanvas_shaped rnd w h s))
        as (s' & Hs' & _). eauto. }
  exists s'. split; [exact Hs'|]. by apply (reach_step rnd e s s').
Qed.

Lemma resizeCanvas_covering (rnd : nat -> Q) (w h : Q) (s : State) :
  covering (resizeCanvas rnd w h s).
Proof.
  unfold covering. simpl.
  pose proof (ceil_div_spec (Z.max (Qfloor w) 240)) as [Hw _].
  pose proof (ceil_div_spec (Z.max (Qfloor h) 280)) as [Hh _].
  cbv zeta in Hw, Hh. repeat split; lia.
Qed.

Lemma reachable_covering (rnd : nat -> Q) (s : State) :
  reachable rnd s -> covering s.
Proof.
  assert (Hretarget : forall off text t u,
             drawTargetToMap off text t = Some u -> covering t -> covering u).
  { intros off text t u Hu Ht.
    destruct (drawTargetToMap_frame _ _ _ _ Hu) as (Hc & Hr & _ & _ & _ & Hw & Hh).
    unfold covering. rewrite Hc, Hr, Hw, Hh. exact Ht. }
  induction 1 as [cw ch w h off s Hs|e s s' _ IH Hs].
  - eapply Hretarget; [exact Hs|apply resizeCanvas_covering].
  - destruct e as [|off value|w h off value]; simpl in Hs.
    + destruct (draw_frame rnd s s' Hs) as (Hc & Hr & Hw & Hh & _).
      unfold covering. rewrite Hc, Hr, Hw, Hh. exact IH.
    + eapply Hretarget; [exact Hs|exact IH].
    + eapply Hretarget; [exact Hs|apply resizeCanvas_covering].
Qed.

(** ** The values of the live grid *)

Lemma diffuseCell_cells (rnd : nat -> Q) (P : Z -> Prop) (y x : nat)
    (s s' : State) :
  P 1 -> P 2 -> diffuseCell rnd y x s = Some s' ->
  Forall (Forall P) (freezeMap s) -> Forall (Forall P) (freezeMap s').
Proof.
  intros H1 H2. unfold diffuseCell.
  destruct (freezeMap s !! y) as [line|]; [|discriminate].
  destruct (line !! x) as [v|]; [|by intros [= <-]].
  cbn [Math_random freezeMap].
  destruct (v =? 1).
  - destruct (Qltb _ _); [|by intros [= <-]].
    destruct (writeCell y x 2 (freezeMap s)) as [fm|] eqn:E; [|discriminate].
    intros [= <-] H. simpl. exact (writeCell_cells P _ _ _ _ _ E H2 H).
  - destruct (v =? 2); [|by intros [= <-]].
    destruct (Qltb _ _); [|by intros [= <-]].
    destruct (writeCell y x 1 (freezeMap s)) as [fm|] eqn:E; [|discriminate].
    intros [= <-] H. simpl. exact (writeCell_cells P _ _ _ _ _ E H1 H).
Qed.

Lemma diffuseFreeze_cells (rnd : nat -> Q) (P : Z -> Prop) (s s' : State) :
  P 1 -> P 2 -> diffuseFreeze rnd s = Some s' ->
  Forall (Forall P) (freezeMap s) -> Forall (Forall P) (freezeMap s').
Proof.
  intros H1 H2 Hrun Hs. unfold diffuseFreeze in Hrun.
  apply (forEach_inv _ (fun t => Forall (Forall P) (freezeMap t)) _ _ _)
    with (3 := Hrun); [|exact Hs].
  intros y t t' _ Ht Hy.
  apply (forEach_inv _ (fun t => Forall (Forall P) (freezeMap t)) _ _ _)
    with (3 := Hy); [|exact Ht].
  intros x u u' _ Hu Hx. exact (diffuseCell_cells rnd P y x u u' H1 H2 Hx Hu).
Qed.

Lemma binary_ternary (grid : list (list Z)) :
  Forall (Forall binary) grid -> Forall (Forall ternary) grid.
Proof.
  intros H. eapply Forall_impl; [exact H|]. intros line Hl.
  eapply Forall_impl; [exact Hl|].
  intros v [->| ->]; [by left|right; by left].
Qed.

Lemma drawTargetToMap_cells (off : option Offscreen) (text : jsstring)
    (s s' : State) :
  drawTargetToMap off text s = Some s' ->
  Forall (Forall ternary) (freezeMap s) -> Forall (Forall ternary) (freezeMap s').
Proof.
  unfold drawTargetToMap. destruct off as [localCtx|]; [|by intros [= <-]].
  destruct ((columns s <=? 0) || (rows s <=? 0)); [discriminate|].
  destruct (fillTarget_spec (columns s) (rows s)
              (localCtx (columns s) (rows s)
                 (textSize (columns s) (rows s) (lines text))
                 (textCalls (columns s) (rows s)
                    (textSize (columns s) (rows s) (lines text)) (lines text))))
    as (target & -> & _ & _ & Hb).
  intros [= <-] _. simpl. by apply binary_ternary.
Qed.

Lemma reachable_ternary (rnd : nat -> Q) (s : State) :
  reachable rnd s -> Forall (Forall ternary) (freezeMap s).
Proof.
  assert (Hzero : forall w h t,
             Forall (Forall ternary) (freezeMap (resizeCanvas rnd w h t))).
  { intros w h t. simpl. apply binary_ternary, zeroGrid_shape. }
  induction 1 as [cw ch w h off s Hs|e s s' _ IH Hs].
  - eapply drawTargetToMap_cells; [exact Hs|apply Hzero].
  - destruct e as [|off value|w h off value]; simpl in Hs.
    + destruct (draw_frame rnd s s' Hs) as (_ & _ & _ & _ & s1 & Hfm & _ & _ & Hd).
      apply (diffuseFreeze_cells rnd ternary s1 s'); [right; by left|right; by right
                                                       |exact Hd|by rewrite Hfm].
    + eapply drawTargetToMap_cells; [exact Hs|exact IH].
    + eapply drawTargetToMap_cells; [exact Hs|apply Hzero].
Qed.

(** X1.  No event handler raises in a state the page can reach: a frame, a
    submit and a resize each return, and leave a state in which the grid has
    [rows] lines of [columns] cells and the bank one cursor per column. *)
Theorem events_never_raise (rnd : nat -> Q) (s : State) (e : Event) :
  reachable rnd s ->
  exists s', step rnd e s = Some s' /\ reachable rnd s' /\ shaped s'.
Proof.
  intros Hreach. destruct (step_reachable rnd s e Hreach) as (s' & Hs' & Hr).
  exists s'. split; [exact Hs'|]. split; [exact Hr|].
  exact (reachable_shaped rnd s' Hr).
Qed.

Lemma events_never_raise_witness :
  reachable example_half example_rain
  /\ exists s', step example_half Frame example_rain = Some s'.
Proof.
  split; [exact example_rain_reachable|].
  destruct (events_never_raise example_half example_rain Frame
              example_rain_reachable) as (s' & Hs' & _).
  exists s'. exact Hs'.
Defined.

(** X2.  In every reachable state the canvas is at least 240 by 280, the
    grid has at least 18 columns and 20 rows, and the grid covers the
    canvas with less than one cell to spare in each direction. *)
Theorem grid_covers_canvas (rnd : nat -> Q) (s : State) :
  reachable rnd s ->
  240 <= canvasWidth s /\ 280 <= canvasHeight s
  /\ 18 <= columns s /\ 20 <= rows s
  /\ 14 * (columns s - 1) < canvasWidth s <= 14 * columns s
  /\ 14 * (rows s - 1) < canvasHeight s <= 14 * rows s.
Proof.
  intros Hreach.
  destruct (reachable_covering rnd s Hreach) as (Hw & Hh & Hc & Hr).
  unfold fontSize in *. repeat split; lia.
Qed.

Lemma grid_covers_canvas_witness :
  reachable example_half example_rain /\ 18 <= columns example_rain.
Proof.
  split; [exact example_rain_reachable|].
  exact (proj1 (proj2 (proj2 (grid_covers_canvas example_half example_rain
                                example_rain_reachable)))).
Defined.

(** X3.  In every reachable state every cell of the live grid holds 0, 1
    or 2. *)
Theorem live_grid_ternary (rnd : nat -> Q) (s : State) (y x : nat) (v : Z) :
  reachable rnd s -> getCell (freezeMap s) y x = Some v ->
  v = 0 \/ v = 1 \/ v = 2.
Proof.
  intros Hreach Hv. pose proof (reachable_ternary rnd s Hreach) as H.
  unfold getCell in Hv. destruct (freezeMap s !! y) as [line|] eqn:E; [|discriminate].
  pose proof (proj1 (Forall_lookup _ _) H y line E) as Hline.
  exact (proj1 (Forall_lookup _ _) Hline x v Hv).
Qed.

Lemma live_grid_ternary_witness :
  reachable example_rnd example_locked
  /\ getCell (freezeMap example_locked) 0 0 = Some 2.
Proof.
  assert (H : getCell (freezeMap example_locked) 0 0 = Some 2)
    by (vm_compute; reflexivity).
  split; [exact example_locked_reachable|].
  destruct (live_grid_ternary example_rnd example_locked 0 0 2
              example_locked_reachable H) as [E|[E|E]];
    [discriminate E|discriminate E|exact H].
Defined.

(** ** The silhouette under frames *)

Lemma automaton_shape (v : Z) (r : Q) :
  (automaton v r = 0 <-> v = 0)
  /\ ((automaton v r = 1 \/ automaton v r = 2) <-> (v = 1 \/ v = 2)).
Proof.
  unfold automaton. destruct (Z.eqb_spec v 1) as [->|H1].
  - destruct (Qltb r (6 # 1000)); split; split; intros H; try lia; auto.
  - destruct (Z.eqb_spec v 2) as [->|H2].
    + destruct (Qltb r (1 # 1000)); split; split; intros H; try lia; auto.
    + split; split; intros H; lia.
Qed.

Lemma draw_cell (rnd : nat -> Q) (s s' : State) (y x : nat) (v : Z) :
  shaped s -> draw rnd s = Some s' ->
  getCell (freezeMap s) y x = Some v ->
  exists k, getCell (freezeMap s') y x = Some (automaton v (rnd k)).
Proof.
  intros Hs Hdraw Hv. destruct (getCell_in_grid s y x v Hs Hv) as [Hy Hx].
  destruct (draw_frame rnd s s' Hdraw) as (_ & _ & _ & _ & s1 & Hfm & Hc & Hr & Hd).
  apply (diffuseFreeze_cell rnd s1 s' y x v Hd); [by rewrite Hr|by rewrite Hc|].
  by rewrite Hfm.
Qed.

Lemma frames_shaped (rnd : nat -> Q) (n : nat) :
  forall s, shaped s ->
    exists s', frames rnd n s = Some s' /\ shaped s'
               /\ columns s' = columns s /\ rows s' = rows s.
Proof.
  induction n as [|n IH]; intros s Hs;
    [exists s; split; [reflexivity|]; split; [exact Hs|]; by split|].
  destruct (draw_total rnd s Hs) as (s1 & H1 & Hs1).
  destruct (draw_frame rnd s s1 H1) as (Hc & Hr & _).
  destruct (IH s1 Hs1) as (s' & Hrun & Hs' & Hc' & Hr').
  exists s'. simpl. rewrite H1. split; [exact Hrun|]. split; [exact Hs'|].
  split; congruence.
Qed.

(** X4.  Frames never change the silhouette: after any number of frames a
    cell is idle exactly when it was idle, and is a target or locked cell
    exactly when it was one of the two. *)
Theorem frames_keep_silhouette (rnd : nat -> Q) (n : nat) (s : State) :
  shaped s ->
  exists s',
    frames rnd n s = Some s'
    /\ forall y x v,
         getCell (freezeMap s) y x = Some v ->
         exists v',
           getCell (freezeMap s') y x = Some v'
           /\ (v' = 0 <-> v = 0)
           /\ ((v' = 1 \/ v' = 2) <-> (v = 1 \/ v = 2)).
Proof.
  revert s. induction n as [|n IH]; intros s Hs.
  - exists s. split; [reflexivity|]. intros y x v Hv. exists v. by repeat split.
  - destruct (draw_total rnd s Hs) as (s1 & H1 & Hs1).
    destruct (IH s1 Hs1) as (s' & Hrun & Hcells).
    exists s'. simpl. rewrite H1. split; [exact Hrun|].
    intros y x v Hv.
    destruct (draw_cell rnd s s1 y x v Hs H1 Hv) as (k & Hk).
    destruct (Hcells y x _ Hk) as (v' & Hv' & Hz & Ht).
    destruct (automaton_shape v (rnd k)) as [Az At].
    exists v'. split; [exact Hv'|]. split.
    + by rewrite Hz.
    + by rewrite Ht.
Qed.

Lemma frames_keep_silhouette_witness :
  shaped example_small
  /\ exists s',
       frames example_rnd 3 example_small = Some s'
       /\ freezeMap s' = [[2; 1]].
Proof.
  split; [exact example_small_shaped|].
  destruct (frames_keep_silhouette example_rnd 3 example_small
              example_small_shaped) as (s' & Hs' & _).
  exists s'. split; [exact Hs'|].
  vm_compute in Hs'. by injection Hs' as <-.
Defined.

(** ** An idle grid *)

Lemma forEach_fixed {A S : Type} (body : A -> S -> option S) (l : list A)
    (s : S) :
  (forall a, a ∈ l -> body a s = Some s) -> forEach body l s = Some s.
Proof.
  induction l as [|a l IH]; intros H; [reflexivity|].
  simpl. rewrite (H a) by apply list_elem_of_here.
  apply IH. intros b Hb. apply H. by apply list_elem_of_further.
Qed.

Lemma diffuseCell_idle (rnd : nat -> Q) (y x : nat) (s : State) :
  Forall (Forall (fun v => v = 0)) (freezeMap s) ->
  (y < length (freezeMap s))%nat -> diffuseCell rnd y x s = Some s.
Proof.
  intros Hidle Hy. unfold diffuseCell.
  destruct (lookup_lt_is_Some_2 _ _ Hy) as [line E]. rewrite E.
  destruct (line !! x) as [v|] eqn:Ex; [|reflexivity].
  pose proof (proj1 (Forall_lookup _ _) Hidle y line E) as Hline.
  by rewrite (proj1 (Forall_lookup _ _) Hline x v Ex).
Qed.

Lemma diffuseFreeze_idle (rnd : nat -> Q) (s : State) :
  length (freezeMap s) = Z.to_nat (rows s) ->
  Forall (Forall (fun v => v = 0)) (freezeMap s) ->
  diffuseFreeze rnd s = Some s.
Proof.
  intros Hl Hidle. unfold diffuseFreeze. apply forEach_fixed.
  intros y Hy. apply elem_of_upto in Hy. apply forEach_fixed.
  intros x _. apply diffuseCell_idle; [exact Hidle|lia].
Qed.

Lemma frames_idle (rnd : nat -> Q) (n : nat) :
  forall s, shaped s -> Forall (Forall (fun v => v = 0)) (freezeMap s) ->
    exists s', frames rnd n s = Some s' /\ freezeMap s' = freezeMap s.
Proof.
  induction n as [|n IH]; intros s Hs Hidle; [by exists s|].
  destruct (draw_total rnd s Hs) as (s1 & H1 & Hs1).
  destruct (draw_frame rnd s s1 H1) as (_ & _ & _ & _ & t & Hfm & _ & Hr & Hd).
  assert (Ht : diffuseFreeze rnd t = Some t).
  { apply diffuseFreeze_idle; [|by rewrite Hfm].
    destruct Hs as (_ & _ & _ & Hl & _). by rewrite Hfm, Hr. }
  assert (s1 = t) as -> by congruence.
  destruct (IH t Hs1) as (s' & Hrun & Hsame); [by rewrite Hfm|].
  exists s'. simpl. rewrite H1. split; [exact Hrun|congruence].
Qed.

Lemma cellState_zeroGrid (r c row : Z) (column : nat) :
  cellState (zeroGrid r c) row column = 0.
Proof.
  unfold cellState, lookupZ, zeroGrid. destruct (row <? 0); [reflexivity|].
  destruct (replicate (Z.to_nat r) (replicate (Z.to_nat c) 0) !! Z.to_nat row)
    as [line|] eqn:E; [|reflexivity].
  apply lookup_replicate in E as [-> _].
  destruct (replicate (Z.to_nat c) 0 !! column) as [v|] eqn:Ev; [|reflexivity].
  by apply lookup_replicate in Ev as [-> _].
Qed.

(** X5.  A resize during which the off-screen context cannot be obtained
    leaves the animation without a silhouette: the resize returns, every
    later frame returns, and after any number of frames the cell under
    every cursor still reads idle, so no glyph is painted in the locked
    colour. *)
Theorem resize_without_context_is_plain_rain (rnd : nat -> Q) (w h : Q)
    (value : jsstring) (n : nat) (s : State) :
  exists s0 s',
    step rnd (Resize w h None value) s = Some s0
    /\ frames rnd n s0 = Some s'
    /\ freezeMap s' = zeroGrid (rows s') (columns s')
    /\ forall row column, cellState (freezeMap s') row column = 0.
Proof.
  exists (resizeCanvas rnd w h s).
  destruct (frames_shaped rnd n _ (resizeCanvas_shaped rnd w h s))
    as (s' & Hrun & _ & Hc & Hr).
  destruct (frames_idle rnd n (resizeCanvas rnd w h s)
              (resizeCanvas_shaped rnd w h s)) as (s'' & Hrun' & Hfm).
  { simpl. unfold zeroGrid. apply Forall_replicate, Forall_replicate. reflexivity. }
  assert (s'' = s') as -> by congruence.
  exists s'. split; [reflexivity|]. split; [exact Hrun|].
  assert (Hz : freezeMap s' = zeroGrid (rows s') (columns s'))
    by (rewrite Hfm, Hc, Hr; reflexivity).
  split; [exact Hz|]. intros row column. rewrite Hz. apply cellState_zeroGrid.
Qed.

(** ** Re-targets *)

(** X6.  A re-target does not depend on the lock progress made so far:
    after any number of frames, the same text gives the same target grid as
    it would have given before them. *)
Theorem retarget_discards_progress (rnd : nat -> Q) (localCtx : Offscreen)
    (text : jsstring) (n : nat) (s : State) :
  shaped s ->
  exists s' target,
    frames rnd n s = Some s'
    /\ drawTargetToMap (Some localCtx) text s = Some (setFreezeMap target s)
    /\ drawTargetToMap (Some localCtx) text s' = Some (setFreezeMap target s').
Proof.
  intros Hs. destruct (frames_shaped rnd n s Hs) as (s' & Hrun & Hs' & Hc & Hr).
  destruct Hs as (Hcols & Hrows & _).
  destruct (drawTargetToMap_retarget localCtx text s Hcols Hrows)
    as (target & Hd & Hf & _).
  destruct (drawTargetToMap_retarget localCtx text s') as (target' & Hd' & Hf' & _);
    [lia|lia|].
  rewrite Hc, Hr, Hf in Hf'. injection Hf' as <-.
  exists s', target. by repeat split.
Qed.

Lemma retarget_discards_progress_witness :
  shaped example_small
  /\ exists s' target,
       frames example_rnd 2 example_small = Some s'
       /\ drawTargetToMap (Some example_ctx) (lit "HI") s'
          = Some (setFreezeMap target s')
       /\ target = [[1; 1]].
Proof.
  split; [exact example_small_shaped|].
  destruct (retarget_discards_progress example_rnd example_ctx (lit "HI") 2
              example_small example_small_shaped) as (s' & target & H1 & H2 & H3).
  exists s', target. split; [exact H1|]. split; [exact H3|].
  vm_compute in H2. by injection H2 as <-.
Defined.

(** X7.  After a re-target a cell is 1 exactly when the alpha byte of its
    pixel in the off-screen image exists and exceeds 30, and 0 otherwise. *)
Theorem target_follows_alpha (localCtx : Offscreen) (text : jsstring)
    (s : State) (y x : nat) :
  0 < columns s -> 0 < rows s ->
  (y < Z.to_nat (rows s))%nat -> (x < Z.to_nat (columns s))%nat ->
  let imageData :=
    localCtx (columns s) (rows s) (textSize (columns s) (rows s) (lines text))
      (textCalls (columns s) (rows s)
         (textSize (columns s) (rows s) (lines text)) (lines text)) in
  let i := (y * Z.to_nat (columns s) + x)%nat in
  exists s',
    drawTargetToMap (Some localCtx) text s = Some s'
    /\ (getCell (freezeMap s') y x = Some 1
        <-> exists alpha, imageData !! (4 * i + 3)%nat = Some alpha /\ 30 < alpha)
    /\ (getCell (freezeMap s') y x = Some 0
        <-> ~ exists alpha, imageData !! (4 * i + 3)%nat = Some alpha /\ 30 < alpha).
Proof.
  intros Hc Hr Hy Hx. cbv zeta.
  destruct (drawTargetToMap_retarget localCtx text s Hc Hr)
    as (target & Hd & Hf & _).
  exists (setFreezeMap target s). split; [exact Hd|]. simpl.
  rewrite (fillTarget_cell _ _ _ _ y x Hf Hy Hx).
  unfold opaque, lookupZ.
  replace ((Z.of_nat y * columns s + Z.of_nat x) * 4 + 3 <? 0) with false
    by (symmetry; apply Z.ltb_ge; nia).
  replace (Z.to_nat ((Z.of_nat y * columns s + Z.of_nat x) * 4 + 3))
    with (4 * (y * Z.to_nat (columns s) + x) + 3)%nat by nia.
  destruct (_ !! _) as [alpha|]; [destruct (Z.ltb_spec 30 alpha)|].
  - split; split; try done; eauto. intros H'. exfalso. apply H'. eauto.
  - split; split; try done.
    + intros (a & [= <-] & Ha). lia.
    + intros _ (a & [= <-] & Ha). lia.
  - split; split; try done.
    + intros (a & [=] & _).
    + intros _ (a & [=] & _).
Qed.

Lemma target_follows_alpha_witness :
  0 < columns example_small /\ 0 < rows example_small
  /\ exists s',
       drawTargetToMap (Some example_ctx) (lit "HI") example_small = Some s'
       /\ getCell (freezeMap s') 0 1 = Some 1.
Proof.
  assert (Hc : 0 < columns example_small) by (simpl; lia).
  assert (Hr : 0 < rows example_small) by (simpl; lia).
  split; [exact Hc|]. split; [exact Hr|].
  destruct (target_follows_alpha example_ctx (lit "HI") example_small 0 1 Hc Hr)
    as (s' & Hs' & H1 & _); [simpl; lia|simpl; lia|].
  exists s'. split; [exact Hs'|]. apply H1.
  exists 255. split; [reflexivity|lia].
Defined.

(** ** Blank input *)

Lemma trimStart_blank (text : jsstring) : blank text -> trimStart text = [].
Proof.
  induction 1 as [|c text Hc _ IH]; [reflexivity|].
  simpl. by rewrite Hc.
Qed.

Lemma lines_blank (text : jsstring) : blank text -> lines text = [defaultPhrase].
Proof.
  intros H. unfold lines, lineList, trim. by rewrite (trimStart_blank text H).
Qed.

Lemma drawTargetToMap_lines (off : option Offscreen) (t1 t2 : jsstring)
    (s : State) :
  lines t1 = lines t2 -> drawTargetToMap off t1 s = drawTargetToMap off t2 s.
Proof.
  intros H. unfold drawTargetToMap. destruct off; [|reflexivity].
  by rewrite H.
Qed.

Lemma lines_or_else_blank (value : jsstring) :
  blank value -> lines (or_else value defaultPhrase) = lines defaultPhrase.
Proof.
  intros H. destruct value as [|c value]; [reflexivity|].
  cbn [or_else]. by rewrite (lines_blank _ H).
Qed.

(** X8.  An input of whitespace and line breaks only (the empty input
    included) is rasterized as the default phrase: submitting it, or
    resizing while it is in the input field, gives the state that the
    default phrase gives. *)
Theorem blank_input_gives_default (rnd : nat -> Q) (off : option Offscreen)
    (value : jsstring) (w h : Q) (s : State) :
  blank value ->
  lines (or_else value defaultPhrase) = [defaultPhrase]
  /\ step rnd (Submit off value) s = step rnd (Submit off defaultPhrase) s
  /\ step rnd (Resize w h off value) s
     = step rnd (Resize w h off defaultPhrase) s.
Proof.
  intros H. pose proof (lines_or_else_blank value H) as Hl.
  split; [exact Hl|]. split; simpl; by apply drawTargetToMap_lines.
Qed.

Lemma blank_input_gives_default_witness :
  blank [32; 10; 9; 13]
  /\ lines (or_else [32; 10; 9; 13] defaultPhrase) = [defaultPhrase].
Proof.
  assert (H : blank [32; 10; 9; 13]) by (repeat constructor).
  split; [exact H|].
  exact (proj1 (blank_input_gives_default example_rnd None [32; 10; 9; 13]
                  240 280 example_small H)).
Defined.

(** ** The lines handed to [fillText] *)

Lemma split_lf_no_lf (s : jsstring) :
  Forall (Forall (fun c => c <> 10)) (split_lf s).
Proof.
  induction s as [|c s IH]; [repeat constructor|].
  rewrite split_lf_cons. destruct (Z.eqb_spec c 10) as [->|Hc].
  - constructor; [constructor|exact IH].
  - destruct (split_lf s) as [|l ls]; [repeat constructor; exact Hc|].
    apply Forall_cons in IH as [Hl Hls].
    constructor; [constructor; assumption|exact Hls].
Qed.

Lemma trimEnd_Forall (P : Z -> Prop) (s : jsstring) :
  Forall P s -> Forall P (trimEnd s).
Proof.
  induction 1 as [|c s Hc _ IH]; [constructor|].
  rewrite trimEnd_cons. destruct (trimEnd s) as [|d r].
  - destruct (isWhiteSpace c); repeat constructor. exact Hc.
  - constructor; assumption.
Qed.

(** X9.  No line handed to [fillText] contains a line feed. *)
Theorem lines_have_no_line_feed (text : jsstring) :
  Forall (Forall (fun c => c <> 10)) (lines text).
Proof.
  rewrite lines_cases.
  assert (H : Forall (Forall (fun c => c <> 10)) (lineList text)).
  { unfold lineList. apply Forall_take, Forall_forall. intros line Hin.
    apply list_elem_of_In, List.filter_In in Hin as [Hin _].
    apply List.in_map_iff in Hin as (seg & <- & Hseg).
    apply trimEnd_Forall.
    exact (proj1 (Forall_forall _ _) (split_lf_no_lf (trim text)) seg
                 (proj2 (list_elem_of_In _ _) Hseg)). }
  destruct (lineList text); [|exact H].
  repeat constructor; discriminate.
Qed.

(** ** Where glyphs are painted *)

Lemma pickGlyph_cases (r : Q) : pickGlyph r = "0"%string \/ pickGlyph r = "1"%string.
Proof.
  unfold pickGlyph. destruct (Qltb (1 # 2) r); [by right|by left].
Qed.

(** X12.  In a reachable state a frame paints the fade overlay over the
    whole canvas and then only glyphs "0" or "1", in one of the two colours,
    at multiples of 14 pixels inside the width of the canvas and between
    row 0 and row [rows + 1]. *)
Theorem glyphs_painted_in_bounds (rnd : nat -> Q) (s : State) :
  unitDraws rnd -> reachable rnd s ->
  exists s' ops,
    draw rnd s = Some s'
    /\ painted s'
       = painted s
         ++ FillRect "rgba(0, 10, 4, 0.18)" 0 0 (canvasWidth s) (canvasHeight s)
         :: ops
    /\ Forall (glyphInBounds s) ops.
Proof.
  intros Hrnd Hreach.
  pose proof (reachable_shaped rnd s Hreach) as Hs.
  pose proof (reachable_cursors rnd s Hrnd Hreach) as Hcur.
  destruct (reachable_covering rnd s Hreach) as (_ & _ & Hcov & _).
  destruct (draw_total rnd s Hs) as (s' & Hdraw & _).
  destruct (draw_inv rnd s s' Hdraw)
    as (s1 & ops & _ & _ & _ & _ & _ & _ & Hp & Hn & Hall).
  exists s', ops. split; [exact Hdraw|]. split; [exact Hp|].
  apply Forall_lookup. intros c op Hop.
  destruct (Hall c) as (row & k & k' & Hrow & Hop' & _).
  { apply lookup_lt_Some in Hop. lia. }
  assert (Hc : (c < Z.to_nat (columns s))%nat)
    by (apply lookup_lt_Some in Hop; lia).
  rewrite Hop' in Hop. injection Hop as <-.
  pose proof (proj1 (Forall_lookup _ _) Hcur c row Hrow) as Hb.
  unfold glyphInBounds, glyphOp, glyphStyle.
  eexists _, _, _, _. split; [reflexivity|].
  split; [destruct (_ =? 2); [by left|by right]|].
  split; [apply pickGlyph_cases|].
  unfold fontSize in *. split; [lia|]. split; [by exists (Z.of_nat c)|lia].
Qed.

Lemma glyphs_painted_in_bounds_witness :
  unitDraws example_half /\ reachable example_half example_rain
  /\ exists s', draw example_half example_rain = Some s'.
Proof.
  split; [exact example_half_unit|]. split; [exact example_rain_reachable|].
  destruct (glyphs_painted_in_bounds example_half example_rain
              example_half_unit example_rain_reachable) as (s' & _ & Hs' & _).
  exists s'. exact Hs'.
Defined.

(** * The export confirmation and the status toast *)

Import ExportDialog.

Lemma run_cons (dialog statusToast : bool) (e : PageEvent)
    (es : list PageEvent) (p : Page) :
  run dialog statusToast (e :: es) p
  = run dialog statusToast es (handle dialog statusToast e p).
Proof. reflexivity. Qed.

Lemma run_static_cons (dialog statusToast : bool) (e : PageEvent)
    (es : list PageEvent) (p : Page) :
  run_static dialog statusToast (e :: es) p
  = run_static dialog statusToast es (handle_static dialog statusToast e p).
Proof. reflexivity. Qed.

Lemma handle_effect (statusToast : bool) (e : PageEvent) (p : Page) :
  navigated (handle true statusToast e p)
  = navigated p
    ++ match e, pendingLink p with
       | ConfirmClick, Some h => [h]
       | _, _ => []
       end
  /\ pendingLink (handle true statusToast e p)
     = match e with
       | ExportClick h => Some h
       | CancelClick | ConfirmClick => None
       | _ => pendingLink p
       end.
Proof.
  destruct e as [href| | |message|]; simpl.
  - by rewrite app_nil_r.
  - by rewrite app_nil_r.
  - unfold confirmClick, closeDialog, follow, showStatus. simpl.
    destruct (pendingLink p); [|by rewrite app_nil_r].
    by destruct statusToast.
  - unfold showStatus. destruct statusToast; simpl; by rewrite app_nil_r.
  - unfold timerFires. destruct (timers p); simpl; by rewrite app_nil_r.
Qed.

(** With the dialog, the navigations of a run: at most one per confirmation
    and per request, each to a requested link. *)
Lemma run_navigated (statusToast : bool) (es : list PageEvent) :
  forall p,
    exists new,
      navigated (run true statusToast es p) = navigated p ++ new
      /\ (length new <= confirmations es)%nat
      /\ (length new
          <= length (clicked es)
             + match pendingLink p with Some _ => 1 | None => 0 end)%nat
      /\ Forall (fun h => h ∈ clicked es \/ pendingLink p = Some h) new.
Proof.
  induction es as [|e es IH]; intros p.
  - exists []. rewrite app_nil_r. simpl. split; [reflexivity|].
    split; [lia|]. split; [lia|constructor].
  - rewrite run_cons.
    destruct (IH (handle true statusToast e p)) as (new & Hnav & Hconf & Hclk & Hin).
    destruct (handle_effect statusToast e p) as [Hn Hp].
    rewrite Hn in Hnav. rewrite Hp in Hclk, Hin. clear Hn Hp.
    destruct e as [href| | |message|].
    + rewrite app_nil_r in Hnav.
      exists new. split; [exact Hnav|]. split; [exact Hconf|].
      split; [simpl; destruct (pendingLink p); lia|].
      eapply Forall_impl; [exact Hin|]. simpl.
      intros h [Hh|[= ->]]; left;
        [by apply list_elem_of_further|apply list_elem_of_here].
    + rewrite app_nil_r in Hnav.
      exists new. split; [exact Hnav|]. split; [exact Hconf|].
      split; [simpl; lia|].
      eapply Forall_impl; [exact Hin|]. simpl. intros h [Hh|[=]]. by left.
    + destruct (pendingLink p) as [href|] eqn:Ep.
      * rewrite <- app_assoc in Hnav.
        exists (href :: new). split; [exact Hnav|].
        split; [unfold confirmations in *; simpl in *; lia|].
        split; [simpl in *; lia|].
        constructor; [by right|].
        eapply Forall_impl; [exact Hin|]. simpl. intros h [Hh|[=]]. by left.
      * rewrite app_nil_r in Hnav.
        exists new. split; [exact Hnav|].
        split; [unfold confirmations in *; simpl in *; lia|].
        split; [exact Hclk|].
        eapply Forall_impl; [exact Hin|]. simpl. intros h [Hh|[=]]. by left.
    + rewrite app_nil_r in Hnav. exists new. by repeat split.
    + rewrite app_nil_r in Hnav. exists new. by repeat split.
Qed.

(** X13.  With the dialog on the page, the exports of any sequence of
    events started from the loaded page are confirmed requests: there are
    no more navigations than confirmations, no more than clicks on export
    links, and every navigation goes to a link that was clicked. *)
Theorem export_needs_confirmation (statusToast : bool) (es : list PageEvent) :
  (length (navigated (run true statusToast es loaded)) <= confirmations es)%nat
  /\ (length (navigated (run true statusToast es loaded))
      <= length (clicked es))%nat
  /\ Forall (fun h => h ∈ clicked es) (navigated (run true statusToast es loaded)).
Proof.
  destruct (run_navigated statusToast es loaded) as (new & Hnav & Hc & Hk & Hin).
  simpl in Hnav, Hk. rewrite Hnav.
  split; [exact Hc|]. split; [lia|].
  eapply Forall_impl; [exact Hin|]. simpl. by intros h [Hh|[=]].
Qed.

(** X14.  After a cancel, and after a confirm, nothing more is exported
    until an export link is clicked again: the request is discarded by the
    cancel and used up by the confirm. *)
Theorem request_is_one_shot (statusToast : bool) (es : list PageEvent)
    (p : Page) :
  clicked es = [] ->
  navigated (run true statusToast (CancelClick :: es) p) = navigated p
  /\ navigated (run true statusToast (ConfirmClick :: es) p)
     = navigated (confirmClick true statusToast p)
  /\ navigated (confirmClick true statusToast p)
     = navigated p ++ match pendingLink p with Some h => [h] | None => [] end.
Proof.
  intros Hnone.
  assert (Hquiet : forall q, pendingLink q = None ->
             navigated (run true statusToast es q) = navigated q).
  { intros q Hq.
    destruct (run_navigated statusToast es q) as (new & Hnav & _ & Hk & _).
    rewrite Hnone, Hq in Hk. simpl in Hk.
    destruct new; [|simpl in Hk; lia]. by rewrite app_nil_r in Hnav. }
  split; [|split].
  - rewrite run_cons. by rewrite Hquiet.
  - rewrite run_cons. apply Hquiet.
    exact (proj2 (handle_effect statusToast ConfirmClick p)).
  - exact (proj1 (handle_effect statusToast ConfirmClick p)).
Qed.

Lemma request_is_one_shot_witness :
  clicked [ConfirmClick; TimerFires] = []
  /\ navigated (run true true [ExportClick (lit "/export.csv"); ConfirmClick;
                               ConfirmClick; TimerFires] loaded)
     = [lit "/export.csv"].
Proof.
  assert (H : clicked [ConfirmClick; TimerFires] = []) by reflexivity.
  split; [exact H|].
  exact (eq_trans
           (proj1 (proj2 (request_is_one_shot true [ConfirmClick; TimerFires]
                            (handle true true (ExportClick (lit "/export.csv"))
                               loaded) H)))
           eq_refl).
Defined.

(** X15.  Without the dialog on the page nothing is intercepted: every
    click on an export link follows the link at once, in the order of the
    clicks, and no request is ever pending. *)
Theorem export_without_dialog_follows_link (statusToast : bool)
    (es : list PageEvent) (p : Page) :
  navigated (run false statusToast es p) = navigated p ++ clicked es
  /\ pendingLink (run false statusToast es p) = pendingLink p
  /\ dialogOpen (run false statusToast es p) = dialogOpen p.
Proof.
  revert p. induction es as [|e es IH]; intros p.
  - simpl. by rewrite app_nil_r.
  - rewrite run_cons. destruct (IH (handle false statusToast e p)) as (Hn & Hp & Hd).
    rewrite Hn, Hp, Hd.
    destruct e as [href| | |message|]; simpl.
    + by rewrite <- app_assoc.
    + done.
    + done.
    + unfold showStatus. by destruct statusToast.
    + unfold timerFires. by destruct (timers p).
Qed.

Lemma handle_toastInv (dialog statusToast : bool) (e : PageEvent) (p : Page) :
  toastInv statusToast p -> toastInv statusToast (handle dialog statusToast e p).
Proof.
  intros [H1 H2]. unfold toastInv.
  destruct e as [href| | |message|]; simpl.
  - unfold exportClick, handleExportClick. by destruct dialog.
  - unfold cancelClick. by destruct dialog.
  - unfold confirmClick, closeDialog, follow, showStatus.
    destruct dialog; simpl; [|done].
    destruct (pendingLink p); simpl; [|done].
    destruct statusToast; simpl; [|done]. split; [lia|done].
  - unfold showStatus. destruct statusToast; simpl; [|done]. split; [lia|done].
  - unfold timerFires. destruct (timers p) as [|n] eqn:E; [by rewrite E|].
    simpl. split; [done|]. intros Hs. destruct (H2 Hs). lia.
Qed.

Lemma run_toastInv (dialog statusToast : bool) (es : list PageEvent) :
  forall p, toastInv statusToast p ->
            toastInv statusToast (run dialog statusToast es p).
Proof.
  induction es as [|e es IH]; intros p Hp; [exact Hp|].
  rewrite run_cons. by apply IH, handle_toastInv.
Qed.

Lemma timers_flush (dialog statusToast : bool) (n : nat) :
  forall p, timers p = n -> (toastShown p = true -> (0 < timers p)%nat) ->
    toastShown (run dialog statusToast (replicate n TimerFires) p) = false
    /\ timers (run dialog statusToast (replicate n TimerFires) p) = 0%nat.
Proof.
  induction n as [|n IH]; intros p Hn Hinv.
  - simpl. split; [|exact Hn].
    destruct (toastShown p); [|reflexivity]. specialize (Hinv eq_refl). lia.
  - cbn [replicate]. rewrite run_cons. apply IH.
    + simpl. unfold timerFires. by rewrite Hn.
    + simpl. unfold timerFires. rewrite Hn. simpl. discriminate.
Qed.

(** X16.  The toast never stays up for good: after any sequence of events
    from the loaded page it is shown only while a hide callback is pending,
    and once the pending callbacks have run it is hidden and none is left.
    Without a toast element it is never shown and no callback is ever
    scheduled. *)
Theorem toast_is_always_hidden_again (dialog statusToast : bool)
    (es : list PageEvent) :
  let p := run dialog statusToast es loaded in
  (toastShown p = true -> (0 < timers p)%nat)
  /\ toastShown (run dialog statusToast (replicate (timers p) TimerFires) p)
     = false
  /\ timers (run dialog statusToast (replicate (timers p) TimerFires) p) = 0%nat
  /\ (statusToast = false -> toastShown p = false /\ timers p = 0%nat).
Proof.
  cbv zeta.
  assert (Hinv : toastInv statusToast (run dialog statusToast es loaded)).
  { apply run_toastInv. split; [discriminate|done]. }
  destruct Hinv as [H1 H2]. split; [exact H1|].
  destruct (timers_flush dialog statusToast _ _ eq_refl H1) as [Hs Ht].
  split; [exact Hs|]. split; [exact Ht|exact H2].
Qed.

(** X17.  When the toast element is missing, the script of static/app.js
    can never export through the dialog: the confirm handler closes the
    dialog and raises in [showStatus] before it navigates, whatever the
    events.  The script of part_000 exports in the same situation. *)
Theorem static_export_needs_toast (es : list PageEvent) (p : Page)
    (href : jsstring) :
  navigated (run_static true false es p) = navigated p
  /\ confirmClick_static true false
       (handle_static true false (ExportClick href) p)
     = Raised (mkPage false (Some href) (toastText p) (toastShown p)
                      (timers p) (navigated p))
  /\ navigated (run true false [ExportClick href; ConfirmClick] p)
     = navigated p ++ [href].
Proof.
  split; [|split; reflexivity].
  revert p. induction es as [|e es IH]; intros p; [reflexivity|].
  rewrite run_static_cons, IH.
  destruct e as [h| | |message|]; simpl; try reflexivity.
  - unfold confirmClick_static, closeDialog. simpl.
    by destruct (pendingLink p).
  - unfold timerFires. by destruct (timers p).
Qed.

(** * Submits *)

(** X18.  A submit never disturbs the rain: in a reachable state it returns,
    and it leaves every cursor, the grid dimensions, the canvas, the
    commands painted so far and the stream of random draws as they were;
    only the live grid is replaced. *)
Theorem submit_keeps_the_rain (rnd : nat -> Q) (off : option Offscreen)
    (value : jsstring) (s : State) :
  reachable rnd s ->
  exists s',
    step rnd (Submit off value) s = Some s'
    /\ drops s' = drops s /\ seed s' = seed s /\ painted s' = painted s
    /\ columns s' = columns s /\ rows s' = rows s
    /\ canvasWidth s' = canvasWidth s /\ canvasHeight s' = canvasHeight s.
Proof.
  intros Hreach.
  destruct (step_reachable rnd s (Submit off value) Hreach) as (s' & Hs' & _).
  exists s'. split; [exact Hs'|]. simpl in Hs'.
  destruct (drawTargetToMap_frame _ _ _ _ Hs') as (H1 & H2 & H3 & H4 & H5 & H6 & H7).
  by repeat split.
Qed.

Lemma submit_keeps_the_rain_witness :
  reachable example_rnd example_locked
  /\ exists s',
       step example_rnd (Submit (Some example_ctx) (lit "HI")) example_locked
       = Some s'
       /\ drops s' = drops example_locked.
Proof.
  split; [exact example_locked_reachable|].
  destruct (submit_keeps_the_rain example_rnd (Some example_ctx) (lit "HI")
              example_locked example_locked_reachable) as (s' & H1 & H2 & _).
  exists s'. by split.
Defined.
